(** * testcontainers-go: the local Docker Compose driver and the module generator

    A shallow embedding of [compose.go] (the Compose Driver, the Process
    Runner and the Output Tee) and of [modulegen/main.go] (the validation of
    an example, [generate] and [main]), with the properties of their
    specification.

    Go values are modelled as follows.
    - [string] is a Go string (a sequence of bytes);
    - [error] is a Go [error] interface value: [None] is [nil], [Some msg] is
      a non-nil error whose [Error()] text is [msg];
    - [map[string]string] is a [gmap string string]; a nil map is [∅];
    - [[]string] is a [list string]; a nil slice is [[]]. *)

From Stdlib Require Import Strings.Ascii Strings.String Strings.Byte ZArith.
From stdpp Require Import base gmap strings list fin_maps.

(** ** Go values shared by the two programs *)

Abbreviation error := (option string).

(** [err.Error()] of a non-nil error. *)
Definition Error_text (e : error) : string := default "" e.

Definition byte_lt (c : ascii) (n : nat) : bool := Nat.ltb (nat_of_ascii c) n.
Definition byte_between (lo hi : nat) (c : ascii) : bool :=
  Nat.leb lo (nat_of_ascii c) && Nat.leb (nat_of_ascii c) hi.

(** [strings.Join(elems, sep)]. *)
Fixpoint strings_Join (elems : list string) (sep : string) : string :=
  match elems with
  | [] => ""
  | [e] => e
  | e :: rest => e +:+ sep +:+ strings_Join rest sep
  end.

Fixpoint string_map (f : ascii → ascii) (s : string) : string :=
  match s with
  | EmptyString => EmptyString
  | String c rest => String (f c) (string_map f rest)
  end.

Fixpoint string_forallb (p : ascii → bool) (s : string) : bool :=
  match s with
  | EmptyString => true
  | String c rest => p c && string_forallb p rest
  end.

(** [strings.ToLower]: the standard library lowers a string of ASCII bytes
    byte by byte and sends any other string through
    [strings.Map(unicode.ToLower, s)], whose table is a parameter here. *)
Definition lowerASCII (c : ascii) : ascii :=
  if byte_between 65 90 c then ascii_of_nat (nat_of_ascii c + 32) else c.

Definition strings_ToLower (unicodeLower : string → string) (s : string) : string :=
  if string_forallb (λ c, byte_lt c 128) s then string_map lowerASCII s
  else unicodeLower s.

(** ** The Output Tee *)
Module Tee.

(** [io.Writer]: a destination has a state, and a write returns the new
    state with the byte count and the error. *)
Class Writer (W : Type) : Type :=
  io_Write : W → list byte → W * (Z * error).

(** capturingPassThroughWriter is a writer that remembers
    data written to it and passes it to w.  [buf] is the contents of its
    [bytes.Buffer]. *)
Record capturingPassThroughWriter (W : Type) : Type := {
  buf : list byte;
  w : W
}.
Arguments buf {W} _.
Arguments w {W} _.

(** newCapturingPassThroughWriter creates new capturingPassThroughWriter *)
Definition newCapturingPassThroughWriter {W : Type} (w : W) : capturingPassThroughWriter W :=
  {| buf := []; w := w |}.

(** [w.buf.Write(d)] appends [d] (its result is dropped), then
    [return w.w.Write(d)]. *)
Definition Write {W : Type} `{Writer W} (t : capturingPassThroughWriter W) (d : list byte)
  : capturingPassThroughWriter W * (Z * error) :=
  let buf := buf t ++ d in
  let '(w, res) := io_Write (w t) d in
  ({| buf := buf; w := w |}, res).

(** Bytes returns bytes written to the writer *)
Definition Bytes {W : Type} (t : capturingPassThroughWriter W) : list byte := buf t.

(** The tee is itself an [io.Writer]. *)
#[global] Instance tee_Writer {W : Type} `{Writer W} : Writer (capturingPassThroughWriter W) :=
  Write.

(** A sequence of write calls on a writer, with the result of each. *)
Fixpoint writeAll {W : Type} `{Writer W} (dst : W) (ds : list (list byte))
  : W * list (Z * error) :=
  match ds with
  | [] => (dst, [])
  | d :: rest =>
      let '(dst, res) := io_Write dst d in
      let '(dst, ress) := writeAll dst rest in
      (dst, res :: ress)
  end.

(** A destination that records the writes it receives and accepts them in
    full. *)
Record recorder : Type := { received : list (list byte) }.

#[global] Instance recorder_Writer : Writer recorder := λ r d,
  ({| received := received r ++ [d] |}, (Z.of_nat (length d), None)).

End Tee.

Module Compose.

(** ** The host platform

    Everything [compose.go] asks of the operating system and of the Go
    runtime and is not written in the repository. *)
Record Platform : Type := {
  GOOS : string;                                  (* runtime.GOOS *)
  PathListSeparator : ascii;                      (* os.PathListSeparator *)
  filepath_Abs : string → string * error;         (* filepath.Abs *)
  filepath_Split : string → string * string;      (* filepath.Split *)
  exec_LookPath : string → string * error;        (* exec.LookPath *)
  os_Environ : list string;                       (* os.Environ() *)
  unicodeLower : string → string;                 (* strings.Map(unicode.ToLower, _) *)
  filepath_Base : string → string;                (* filepath.Base *)
  (* the order in which a [range] statement visits the entries of a map,
     which Go leaves unspecified: some order of the entries *)
  mapRange : gmap string string → list (string * string);
  mapRange_entries : ∀ m, mapRange m ≡ₚ map_to_list m
}.

Definition envProjectName : string := "COMPOSE_PROJECT_NAME".
Definition envComposeFile : string := "COMPOSE_FILE".

(** ** LocalDockerCompose *)
Record LocalDockerCompose : Type := {
  Executable : string;
  ComposeFilePaths : list string;
  absComposeFilePaths : list string;
  Identifier : string;
  Cmd : list string;
  Env : gmap string string
}.

Section Driver.
Context (host : Platform).

(** The loop [for i, cfp := range dc.ComposeFilePaths] of the constructor:
    [abs, _ := filepath.Abs(cfp); dc.absComposeFilePaths[i] = abs]. *)
Fixpoint absLoop (i : nat) (cfps : list string) (abs : list string) : list string :=
  match cfps with
  | [] => abs
  | cfp :: rest => absLoop (S i) rest (<[i := (filepath_Abs host cfp).1]> abs)
  end.

Definition NewLocalDockerCompose (filePaths : list string) (identifier : string)
  : LocalDockerCompose :=
  {| Executable :=
       if String.eqb (GOOS host) "windows" then "docker-compose.exe"
       else "docker-compose";
     ComposeFilePaths := filePaths;
     absComposeFilePaths := absLoop 0 filePaths (replicate (length filePaths) "");
     Identifier := strings_ToLower (unicodeLower host) identifier;
     Cmd := [];
     Env := ∅ |}.

(** [WithCommand] and [WithEnv] assign a field of the receiver and return
    it; the returned driver is the updated one. *)
Definition WithCommand (dc : LocalDockerCompose) (cmd : list string) : LocalDockerCompose :=
  {| Executable := Executable dc; ComposeFilePaths := ComposeFilePaths dc;
     absComposeFilePaths := absComposeFilePaths dc; Identifier := Identifier dc;
     Cmd := cmd; Env := Env dc |}.

Definition WithEnv (dc : LocalDockerCompose) (env : gmap string string) : LocalDockerCompose :=
  {| Executable := Executable dc; ComposeFilePaths := ComposeFilePaths dc;
     absComposeFilePaths := absComposeFilePaths dc; Identifier := Identifier dc;
     Cmd := Cmd dc; Env := env |}.

(** A configuration call of the fluent interface, and a driver after a
    sequence of them. *)
Inductive config : Type :=
| SetCommand (cmd : list string)
| SetEnv (env : gmap string string).

Definition configure (dc : LocalDockerCompose) (c : config) : LocalDockerCompose :=
  match c with
  | SetCommand cmd => WithCommand dc cmd
  | SetEnv env => WithEnv dc env
  end.

Definition configured (dc : LocalDockerCompose) (cs : list config) : LocalDockerCompose :=
  foldl configure dc cs.

Definition getDockerComposeEnvironment (dc : LocalDockerCompose) : gmap string string :=
  let environment : gmap string string := ∅ in
  let composeFileEnvVariableValue :=
    foldl (λ value abs, value +:+ (abs +:+ String (PathListSeparator host) ""))
          "" (absComposeFilePaths dc) in
  let environment := <[envProjectName := Identifier dc]> environment in
  let environment := <[envComposeFile := composeFileEnvVariableValue]> environment in
  environment.

End Driver.

(** ** The machine the Process Runner runs on

    [execute] starts an external process and two goroutines that share the
    variables [errStdout] and [errStderr] with it.  The machine keeps the
    cells of such captured variables in a heap, the goroutines that were
    started and have not finished in [pending], and a trace of what was done
    to the outside world. *)
Inductive Stream : Type := StdoutStream | StderrStream.

(** The [*exec.Cmd] built by [exec.Command(binary, args...)] and the two
    assignments that follow it. *)
Record Command : Type := {
  Path : string;
  Args : list string;       (* exec.Command stores the name in front of the arguments *)
  Dir : string;
  CmdEnv : list string
}.

(** ExecError *)
Record ExecError : Type := {
  Error : error;
  Stdout : error;
  Stderr : error
}.

Inductive Event : Type :=
| EvExecute (dirContext : string) (environment : gmap string string)
            (binary : string) (args : list string)   (* a call of [execute] *)
| EvNewTee (s : Stream)                              (* newCapturingPassThroughWriter *)
| EvStart (c : Command) (err : error)                (* cmd.Start() and what it returned *)
| EvGo (s : Stream)                                  (* a [go] statement *)
| EvCopied (s : Stream) (err : error)                (* io.Copy returned in a goroutine *)
| EvWait (c : Command) (err : error).                (* cmd.Wait() and what it returned *)

(** The goroutine [func() { _, errVar = io.Copy(tee, pipe) }()]. *)
Record Task : Type := {
  task_cmd : Command;
  task_stream : Stream;
  task_var : nat
}.

Record Machine : Type := {
  trace : list Event;
  heap : list error;
  pending : list Task
}.

Definition boot : Machine := {| trace := []; heap := []; pending := [] |}.

(** What the external process does, as far as [execute] can see it. *)
Record Process : Type := {
  cmd_Start : Command → error;
  cmd_Wait : Command → error;
  io_Copy : Command → Stream → error
}.

(** A call either returns or panics; goroutines may be scheduled in more
    than one way, so a computation has a list of possible outcomes. *)
Inductive result (A : Type) : Type :=
| Returned (a : A)
| Panicked (msg : string).
Arguments Returned {A} a.
Arguments Panicked {A} msg.

Definition M (A : Type) : Type := Machine → list (result A * Machine).

#[global] Instance M_ret : MRet M := λ A a m, [(Returned a, m)].

#[global] Instance M_bind : MBind M := λ A B k c m,
  '(r, m') ← c m;
  match r with
  | Returned a => k a m'
  | Panicked msg => [(Panicked msg, m')]
  end.

Definition panic {A : Type} (msg : string) : M A := λ m, [(Panicked msg, m)].

Section Runner.
Context (host : Platform) (proc : Process).

(** A pending goroutine finishes: [io.Copy] returns and its error is
    assigned to the captured variable. *)
Definition finish (i : nat) (t : Task) (m : Machine) : Machine :=
  let err := io_Copy proc (task_cmd t) (task_stream t) in
  {| trace := trace m ++ [EvCopied (task_stream t) err];
     heap := <[task_var t := err]> (heap m);
     pending := delete i (pending m) |}.

(** The scheduler: any number of the pending goroutines may finish, in any
    order, before the goroutine that called [execute] goes on. *)
Fixpoint schedule (fuel : nat) (m : Machine) : list Machine :=
  match fuel with
  | 0 => [m]
  | S fuel =>
      m :: ('(i, t) ← imap pair (pending m); schedule fuel (finish i t m))
  end.

(** The same, as a relation: [runs m m'] when [m'] is [m] after some of its
    pending goroutines have finished. *)
Inductive runs : Machine → Machine → Prop :=
| runs_done m : runs m m
| runs_finish m i t m' :
    pending m !! i = Some t → runs (finish i t m) m' → runs m m'.

Definition yield : M unit := λ m,
  (λ m', (Returned (), m')) <$> schedule (length (pending m)) m.

Definition emit (ev : Event) : M unit := λ m,
  [(Returned (), {| trace := trace m ++ [ev]; heap := heap m; pending := pending m |})].

(** [var x error]: a fresh cell holding nil. *)
Definition declare : M nat := λ m,
  [(Returned (length (heap m)),
    {| trace := trace m; heap := heap m ++ [None]; pending := pending m |})].

Definition load (x : nat) : M error := λ m,
  [(Returned (default None (heap m !! x)), m)].

Definition go (t : Task) : M unit := λ m,
  [(Returned (), {| trace := trace m ++ [EvGo (task_stream t)];
                    heap := heap m; pending := pending m ++ [t] |})].

(** Between any two steps of the calling goroutine the others may run. *)
Definition newWriter (s : Stream) : M unit := yield;; emit (EvNewTee s).
Definition Start (c : Command) : M error :=
  yield;; emit (EvStart c (cmd_Start proc c));; mret (cmd_Start proc c).
Definition Wait (c : Command) : M error :=
  yield;; emit (EvWait c (cmd_Wait proc c));; mret (cmd_Wait proc c).
Definition spawn (t : Task) : M unit := yield;; go t.
Definition read (x : nat) : M error := yield;; load x.

(** [cmd := exec.Command(binary, args...)], [cmd.Dir = dirContext],
    [cmd.Env = os.Environ()] and the loop that appends [key+"="+value] for
    the entries of [environment] in the order of its [range].

    [exec.Command] keeps the name as the first argument and, for a name
    without a directory ([filepath.Base(name) == name]), stores in [Path]
    the path that [exec.LookPath] finds for it, when it finds one.
    [CmdEnv] is the field [cmd.Env] as the loop leaves it; when the process
    is started the package keeps, of the entries of one name, the last. *)
Definition command (dirContext : string) (environment : gmap string string)
    (binary : string) (args : list string) : Command :=
  {| Path :=
       if String.eqb (filepath_Base host binary) binary then
         let lp := (exec_LookPath host binary).1 in
         if String.eqb lp "" then binary else lp
       else binary;
     Args := binary :: args;
     Dir := dirContext;
     CmdEnv := foldl (λ env kv, env ++ [kv.1 +:+ "=" +:+ kv.2])
                     (os_Environ host) (mapRange host environment) |}.

(** execute executes a program with arguments and environment variables
    inside a specific directory.

    The two pipes are made before the tees and leave no event; the errors
    of [StdoutPipe] and [StderrPipe] are dropped by the source.  What the
    readers copy is not kept: [execute] never reads the buffers of its
    tees, and the error of each [io.Copy] is given by [proc]. *)
Definition execute (dirContext : string) (environment : gmap string string)
    (binary : string) (args : list string) : M ExecError :=
  emit (EvExecute dirContext environment binary args);;
  errStdout ← declare;
  errStderr ← declare;
  let cmd := command dirContext environment binary args in
  newWriter StdoutStream;;
  newWriter StderrStream;;
  err ← Start cmd;
  if err is Some _ then
    eStderr ← read errStderr;
    eStdout ← read errStdout;
    mret {| Error := err; Stderr := eStderr; Stdout := eStdout |}
  else
    spawn {| task_cmd := cmd; task_stream := StdoutStream; task_var := errStdout |};;
    spawn {| task_cmd := cmd; task_stream := StderrStream; task_var := errStderr |};;
    err ← Wait cmd;
    eStderr ← read errStderr;
    eStdout ← read errStdout;
    mret {| Error := err; Stderr := eStderr; Stdout := eStdout |}.

(** Which checks if a binary is present in PATH *)
Definition which (binary : string) : error := (exec_LookPath host binary).2.

Definition executeCompose (dc : LocalDockerCompose) (args : list string) : M ExecError :=
  if which (Executable dc) is Some _ then
    panic ("Local Docker Compose not found. Is " +:+ Executable dc +:+ " on the PATH?")
  else
    let environment := getDockerComposeEnvironment host dc in
    let environment := map_fold (λ k v environment, <[k := v]> environment)
                                environment (Env dc) in
    let cmds : list string := [] in
    let pwd := "." in
    let '(pwd, cmds) :=
      if Nat.ltb 0 (length (absComposeFilePaths dc)) then
        (* the index is in range under the guard *)
        let pwd := (filepath_Split host (default "" (absComposeFilePaths dc !! 0))).1 in
        (pwd, foldl (λ cmds abs, cmds ++ ["-f"; abs]) cmds (absComposeFilePaths dc))
      else
        (pwd, cmds ++ ["-f"; "docker-compose.yml"]) in
    let cmds := cmds ++ args in
    execErr ← execute pwd environment (Executable dc) cmds;
    let err := Error execErr in
    if err is Some _ then
      let args := strings_Join (Cmd dc) " " in
      panic ("Local Docker compose exited abnormally whilst running " +:+
             Executable dc +:+ ": [" +:+ args +:+ "]. " +:+ Error_text err)
    else
      mret execErr.

(** Down executes docker-compose down *)
Definition Down (dc : LocalDockerCompose) : M ExecError :=
  executeCompose dc ["down"].

(** Invoke invokes the docker compose *)
Definition Invoke (dc : LocalDockerCompose) : M ExecError :=
  executeCompose dc (Cmd dc).

(** The two terminal operations of the driver. *)
Inductive operation : Type := DownOp | InvokeOp.

Definition perform (op : operation) (dc : LocalDockerCompose) : M ExecError :=
  match op with
  | DownOp => Down dc
  | InvokeOp => Invoke dc
  end.

End Runner.

(** *** Reading a run *)

(** Every outcome of [c] from [m] satisfies [Q]; some outcome does. *)
Definition always {A : Type} (c : M A) (m : Machine) (Q : result A → Machine → Prop) : Prop :=
  Forall (λ o, Q o.1 o.2) (c m).

Definition possibly {A : Type} (c : M A) (m : Machine) (Q : result A → Machine → Prop) : Prop :=
  Exists (λ o, Q o.1 o.2) (c m).

(** The calls of [execute] in a trace, the processes that were started, the
    tees that were created and the goroutines that were started. *)
Record Call : Type := {
  call_dir : string;
  call_environment : gmap string string;
  call_binary : string;
  call_args : list string
}.

Definition calls (tr : list Event) : list Call :=
  omap (λ ev, if ev is EvExecute d e b a
              then Some {| call_dir := d; call_environment := e;
                           call_binary := b; call_args := a |}
              else None) tr.

Definition started (tr : list Event) : list Command :=
  omap (λ ev, if ev is EvStart c None then Some c else None) tr.

Definition tees (tr : list Event) : list Stream :=
  omap (λ ev, if ev is EvNewTee s then Some s else None) tr.

Definition goroutines (tr : list Event) : list Stream :=
  omap (λ ev, if ev is EvGo s then Some s else None) tr.

(** The variables captured by the pending goroutines are cells of the
    heap. *)
Definition wf (m : Machine) : Prop :=
  Forall (λ t, task_var t < length (heap m)) (pending m).

(** The machine after one more event. *)
Definition logged (ev : Event) (m : Machine) : Machine :=
  {| trace := trace m ++ [ev]; heap := heap m; pending := pending m |}.

(** What the scheduler leaves as it is: the calls, the processes, the tees
    and the [go] statements of the trace, and the size of the heap. *)
Definition observe (m : Machine) :=
  (calls (trace m), started (trace m), tees (trace m), goroutines (trace m),
   length (heap m)).

(** The cell [x] holds [v] and no pending goroutine has captured it. *)
Definition private (x : nat) (v : error) (m : Machine) : Prop :=
  heap m !! x = Some v ∧ Forall (λ t, task_var t ≠ x) (pending m).

(** The cell [x] is written by the reader of stream [s] of [c] only: it
    holds nil while that reader is pending, and nil or the error of its
    [io.Copy] in any case. *)
Definition shared (proc : Process) (x : nat) (c : Command) (s : Stream) (m : Machine) : Prop :=
  (heap m !! x = Some None ∨ heap m !! x = Some (io_Copy proc c s)) ∧
  Forall (λ t, task_var t = x → task_cmd t = c ∧ task_stream t = s) (pending m).

(** *** The closed forms the specification speaks of *)

(** The [-f <path>] pairs of an argument list. *)
Definition fileFlags (paths : list string) : list string :=
  paths ≫= (λ abs, ["-f"; abs]).

(** Every path followed by the separator. *)
Fixpoint fileList (sep : string) (paths : list string) : string :=
  match paths with
  | [] => ""
  | abs :: rest => abs +:+ sep +:+ fileList sep rest
  end.

(** The argument list: the pairs of the configured files, or of the
    fallback file when there is none, and then the command tokens. *)
Definition arguments (paths : list string) (tokens : list string) : list string :=
  (if paths is [] then ["-f"; "docker-compose.yml"] else fileFlags paths) ++ tokens.

(** The directory of the first configured file, or the current one. *)
Definition workingDirectory (host : Platform) (paths : list string) : string :=
  match paths with
  | [] => "."
  | first :: _ => (filepath_Split host first).1
  end.

(** The two computed variables. *)
Definition computed (host : Platform) (identifier : string) (paths : list string)
  : gmap string string :=
  <[envComposeFile := fileList (String (PathListSeparator host) "") paths]>
    (<[envProjectName := strings_ToLower (unicodeLower host) identifier]> ∅).

(** The command tokens of a terminal operation. *)
Definition tokens (op : operation) (dc : LocalDockerCompose) : list string :=
  match op with
  | DownOp => ["down"]
  | InvokeOp => Cmd dc
  end.

(** The absolute form of the configured paths, as the constructor caches
    it: the path that [filepath.Abs] returns, its error being dropped. *)
Definition absolute (host : Platform) (filePaths : list string) : list string :=
  (λ cfp, (filepath_Abs host cfp).1) <$> filePaths.

(** The text of the panic of [executeCompose] after a failed run. *)
Definition exitedAbnormally (dc : LocalDockerCompose) (why : string) : string :=
  "Local Docker compose exited abnormally whilst running " +:+
  Executable dc +:+ ": [" +:+ strings_Join (Cmd dc) " " +:+ "]. " +:+ why.

(** The command and the overlay that a sequence of configuration calls
    sets last, if it sets any. *)
Definition lastCommand (cs : list config) : option (list string) :=
  last (omap (λ c, if c is SetCommand cmd then Some cmd else None) cs).

Definition lastEnv (cs : list config) : option (gmap string string) :=
  last (omap (λ c, if c is SetEnv env then Some env else None) cs).

(** The entries that [execute] appends to the environment of the process,
    one for each variable of the overlay, in the order of [map_to_list]. *)
Definition entries (environment : gmap string string) : list string :=
  (λ kv, kv.1 +:+ "=" +:+ kv.2) <$> map_to_list environment.

(** The argument list as the specification words it for both terminal
    operations: the configured command tokens follow the [-f] pairs. *)
Definition arguments_as_stated (host : Platform) (proc : Process) (op : operation)
    (filePaths : list string) (identifier : string) (cs : list config) (m : Machine) : Prop :=
  let dc := configured (NewLocalDockerCompose host filePaths identifier) cs in
  always (perform host proc op dc) m (λ r m',
    ∃ c, calls (trace m') = calls (trace m) ++ [c] ∧
         call_args c = arguments (absolute host filePaths) (Cmd dc)).

(** *** A Linux host, for the examples

    [unix_Split], [unix_Clean] and [unix_Abs] follow [path/filepath] on Unix;
    the host has a working directory and a list of the binaries found on
    its PATH. *)
Fixpoint unix_Split (path : string) : string * string :=
  match path with
  | EmptyString => ("", "")
  | String c rest =>
      let '(dir, file) := unix_Split rest in
      if dir is EmptyString then
        if Ascii.eqb c "/" then (String c "", file) else ("", String c file)
      else (String c dir, file)
  end.

(** [strings.Split(s, "/")], with the component being read in [cur]. *)
Fixpoint components (cur : string) (s : string) : list string :=
  match s with
  | EmptyString => [cur]
  | String c rest =>
      if Ascii.eqb c "/" then cur :: components "" rest
      else components (cur +:+ String c "") rest
  end.

(** The elements of a cleaned path, the last one first. *)
Definition cleanStep (rooted : bool) (out : list string) (elem : string) : list string :=
  if String.eqb elem "" || String.eqb elem "." then out
  else if String.eqb elem ".." then
    match out with
    | top :: below => if String.eqb top ".." then elem :: out else below
    | [] => if rooted then out else [elem]
    end
  else elem :: out.

Definition unix_Clean (path : string) : string :=
  let rooted := String.prefix "/" path in
  let out := foldl (cleanStep rooted) [] (components "" path) in
  let body := strings_Join (reverse out) "/" in
  if rooted then "/" +:+ body
  else if String.eqb body "" then "." else body.

(** [filepath.Base] on Unix: the last element of the path, after the
    trailing slashes are dropped. *)
Fixpoint dropTrailingSlashes (path : string) : string :=
  match path with
  | EmptyString => ""
  | String c rest =>
      let rest := dropTrailingSlashes rest in
      if Ascii.eqb c "/" && String.eqb rest "" then "" else String c rest
  end.

Definition unix_Base (path : string) : string :=
  if String.eqb path "" then "."
  else
    let last := (unix_Split (dropTrailingSlashes path)).2 in
    if String.eqb last "" then "/" else last.

Definition unix_Abs (wd : string) (path : string) : string * error :=
  if String.prefix "/" path then (unix_Clean path, None)
  else (unix_Clean (wd +:+ "/" +:+ path), None).

Definition linux (wd : string) (onPath : list string) : Platform :=
  {| GOOS := "linux";
     PathListSeparator := ":";
     filepath_Abs := unix_Abs wd;
     filepath_Split := unix_Split;
     exec_LookPath := λ binary,
       if bool_decide (binary ∈ onPath) then ("/usr/bin/" +:+ binary, None)
       else ("", Some ("exec: " +:+ binary +:+ ": executable file not found in $PATH"));
     os_Environ := ["PATH=/usr/bin"];
     unicodeLower := λ s, s;  (* the examples lower ASCII identifiers only *)
     filepath_Base := unix_Base;
     mapRange := map_to_list;
     mapRange_entries := λ m, reflexivity (map_to_list m) |}.

(** A process that starts, and exits with status 0 or not. *)
Definition exits (status : error) (copyStdout copyStderr : error) : Process :=
  {| cmd_Start := λ _, None;
     cmd_Wait := λ _, status;
     io_Copy := λ _ s, if s is StdoutStream then copyStdout else copyStderr |}.

(** A host with [docker-compose] on its PATH and one without, and a driver
    for one compose file whose command is [up -d]. *)
Definition demoHost : Platform := linux "/work" ["docker-compose"].
Definition bareHost : Platform := linux "/work" [].

Definition demo (host : Platform) : LocalDockerCompose :=
  configured (NewLocalDockerCompose host ["./testdata/docker-compose.yml"] "MyProject")
             [SetCommand ["up"; "-d"]].

(** The same driver with a user overlay that binds the project name. *)
Definition demoOverlay (host : Platform) : LocalDockerCompose :=
  configured (NewLocalDockerCompose host ["./testdata/docker-compose.yml"] "MyProject")
             [SetCommand ["up"; "-d"]; SetEnv {[ "COMPOSE_PROJECT_NAME" := "other" ]}].

(** A process that cannot be started. *)
Definition unstartable (why : string) : Process :=
  {| cmd_Start := λ _, Some why;
     cmd_Wait := λ _, Some "exec: not started";
     io_Copy := λ _ _, None |}.

End Compose.

(** ** The module generator, [modulegen/main.go] *)
Module Modulegen.

(** *** Regular expressions

    The syntax tree of a compiled pattern and a matcher by derivatives.  The
    classes of the patterns of this program hold ASCII bytes only, and a byte
    of a longer UTF-8 sequence is in none of them, so matching bytes and
    matching runes agree. *)
Inductive regexp : Type :=
| Void                                   (* matches nothing *)
| Epsilon                                (* the empty string *)
| Class (ranges : list (nat * nat))      (* [a-bc-d...] *)
| Cat (r1 r2 : regexp)
| Alt (r1 r2 : regexp)
| Star (r : regexp).

Definition in_class (ranges : list (nat * nat)) (c : ascii) : bool :=
  existsb (λ lohi, byte_between lohi.1 lohi.2 c) ranges.

Fixpoint nullable (r : regexp) : bool :=
  match r with
  | Void => false
  | Epsilon => true
  | Class _ => false
  | Cat r1 r2 => nullable r1 && nullable r2
  | Alt r1 r2 => nullable r1 || nullable r2
  | Star _ => true
  end.

Fixpoint deriv (c : ascii) (r : regexp) : regexp :=
  match r with
  | Void => Void
  | Epsilon => Void
  | Class ranges => if in_class ranges c then Epsilon else Void
  | Cat r1 r2 =>
      if nullable r1 then Alt (Cat (deriv c r1) r2) (deriv c r2)
      else Cat (deriv c r1) r2
  | Alt r1 r2 => Alt (deriv c r1) (deriv c r2)
  | Star r1 => Cat (deriv c r1) (Star r1)
  end.

Fixpoint matches (r : regexp) (s : string) : bool :=
  match s with
  | EmptyString => nullable r
  | String c rest => matches (deriv c r) rest
  end.

(** [regexp.MustCompile(`^body$`).MatchString(s)]: without the multi-line
    flag the anchors are the two ends of the text. *)
Definition MatchString (body : regexp) (s : string) : bool := matches body s.

Definition upper : nat * nat := (65, 90).     (* A-Z *)
Definition lower : nat * nat := (97, 122).    (* a-z *)
Definition digit : nat * nat := (48, 57).     (* 0-9 *)

(** The body of [^[A-Za-z][A-Za-z0-9]*$]. *)
Definition alphanumerical : regexp :=
  Cat (Class [upper; lower]) (Star (Class [upper; lower; digit])).

(** *** Example *)
Record Example : Type := {
  Image : string;       (* fully qualified name of the Docker image *)
  IsModule : bool;      (* if true, the example will be generated as a Go module *)
  Name : string;
  TitleName : string;   (* title of the name: e.g. "mongodb" -> "MongoDB" *)
  TCVersion : string    (* Testcontainers for Go version *)
}.

(** [Context] of [context.go]: the root directory and the paths derived
    from it. *)
Record Context : Type := {
  RootDir : string;
  DocsDir : string;
  MkdocsConfigFile : string;
  DependabotConfigFile : string;
  GithubWorkflowsDir : string
}.

(** What the generator asks of the Go libraries, of the file system and of
    the packages of the repository that are not in this file. *)
Record Toolbox : Type := {
  unicodeLower : string → string;                  (* strings.Map(unicode.ToLower, _) *)
  filepath_Join : list string → string;
  filepath_Dir : string → string;
  filepath_Abs : string → string * error;
  os_MkdirAll : string → N → error;
  os_Create : string → error;                      (* the error of os.Create(path) *)
  template_ParseFiles : string → string → error;   (* template.New(name).Funcs(_).ParseFiles(path) *)
  (* t.ExecuteTemplate(file, name, data); the file is nil when os.Create
     returned an error *)
  ExecuteTemplate : string → option string → Example → error;
  NewContext : string → Context;
  GetExamples : Context → error;                   (* the error of rootCtx.GetExamples() *)
  GetModules : Context → error;                    (* the error of rootCtx.GetModules() *)
  workflow_Generate : string → error;              (* with the examples and modules found *)
  mkdocs_ReadConfig : string → string * error;     (* Extra.LatestVersion of the config, and the error *)
  mkdocs_UpdateConfig : string → bool → string → string → error;
  dependabot_UpdateConfig : string → string → string → error;
  tools_GoModTidy : string → error;
  tools_GoVet : string → error;
  os_Getwd : string * error;
  strconv_Quote : string → string;                 (* the verb %q of a string *)
  (* what flag.Usage prints: the name of the program and the defaults of
     the flags *)
  flag_usage : string
}.

Inductive Event : Type :=
| MkdirAll (path : string) (perm : N)
| Create (path : string) (err : error)   (* os.Create and the error it returned *)
| Execute (name : string) (file : option string)
| Close (file : option string)           (* on the nil file nothing is closed *)
| UpdateWorkflow (dir : string)
| UpdateMkdocs (configFile : string) (isModule : bool) (exampleMd indexMd : string)
| UpdateDependabot (configFile directory ecosystem : string)
| GoModTidy (dir : string)
| GoVet (dir : string)
| Print (text : string)                  (* on the standard output *)
| Eprint (text : string).                (* on the standard error *)

(** A step of the generator extends the log of what it did. *)
Definition G (A : Type) : Type := list Event → A * list Event.

#[global] Instance G_ret : MRet G := λ A a log, (a, log).
#[global] Instance G_bind : MBind G := λ A B k c log, let '(a, log) := c log in k a log.

Definition does {A : Type} (ev : Event) (a : A) : G A := λ log, (a, log ++ [ev]).

Definition templates : list string :=
  ["docs_example.md"; "example_test.go"; "example.go"; "go.mod"; "Makefile"].

Definition nl : string := String (ascii_of_nat 10) "".

(** [strings.ReplaceAll(s, old, new)] for a non-empty [old]; [skip] counts
    the bytes of a match that are still to be passed over. *)
Fixpoint replaceFrom (old new : string) (skip : nat) (s : string) : string :=
  match s with
  | EmptyString => EmptyString
  | String c rest =>
      match skip with
      | S skip => replaceFrom old new skip rest
      | 0 =>
          if String.prefix old s
          then new +:+ replaceFrom old new (String.length old - 1) rest
          else String c (replaceFrom old new 0 rest)
      end
  end.

Definition strings_ReplaceAll (s old new : string) : string := replaceFrom old new 0 s.

Section Generator.
Context (box : Toolbox).

Definition Lower (e : Example) : string := strings_ToLower (unicodeLower box) (Name e).

Definition ParentDir (e : Example) : string :=
  if IsModule e then "modules" else "examples".

Definition Validate (e : Example) : error :=
  if negb (MatchString alphanumerical (Name e)) then
    Some ("invalid name: " +:+ Name e +:+
          ". Only alphanumerical characters are allowed (leading character must be a letter)")
  else if negb (MatchString alphanumerical (TitleName e)) then
    Some ("invalid title: " +:+ TitleName e +:+
          ". Only alphanumerical characters are allowed (leading character must be a letter)")
  else None.

(** [strings.EqualFold] on the names of the templates, which are ASCII. *)
Definition strings_EqualFold (s t : string) : bool :=
  String.eqb (string_map lowerASCII s) (string_map lowerASCII t).

(** The loop over [templates]: the error it returns with, if any, and the
    files whose [Close] was deferred, the last one first.  The error of
    [os.Create] is dropped: when it fails, the file is nil and the loop goes
    on with it. *)
Fixpoint render (example : Example) (outputDir docsOuputDir exampleLower : string)
    (tmpls : list string) (deferred : list (option string))
    : G (error * list (option string)) :=
  match tmpls with
  | [] => mret (None, deferred)
  | tmpl :: rest =>
      let name := tmpl +:+ ".tmpl" in
      let err := template_ParseFiles box name (filepath_Join box ["_template"; name]) in
      if err is Some _ then mret (err, deferred) else
      let exampleFilePath :=
        if strings_EqualFold tmpl "docs_example.md"
        then filepath_Join box [docsOuputDir; exampleLower +:+ ".md"]
        else filepath_Join box [outputDir; exampleLower;
                                strings_ReplaceAll tmpl "example" exampleLower] in
      err ← does (MkdirAll (filepath_Dir box exampleFilePath) 511)
                 (os_MkdirAll box (filepath_Dir box exampleFilePath) 511);
      if err is Some _ then mret (err, deferred) else
      exampleFile ← does (Create exampleFilePath (os_Create box exampleFilePath))
                         (if os_Create box exampleFilePath is Some _ then None
                          else Some exampleFilePath);
      let deferred := exampleFile :: deferred in
      err ← does (Execute name exampleFile)
                 (ExecuteTemplate box name exampleFile example);
      if err is Some _ then mret (err, deferred) else
      render example outputDir docsOuputDir exampleLower rest deferred
  end.

Definition getRootContext : Context * error :=
  let '(current, err) := os_Getwd box in
  if err is Some _ then (NewContext box "", err)   (* a nil context, not used *)
  else (NewContext box (filepath_Dir box current), None).

Definition generateWorkFlow (ctx : Context) : G error :=
  let '(rootCtx, err) := getRootContext in
  if err is Some _ then mret err else
  if GetExamples box rootCtx is Some err then mret (Some err) else
  if GetModules box rootCtx is Some err then mret (Some err) else
  does (UpdateWorkflow (GithubWorkflowsDir ctx)) (workflow_Generate box (GithubWorkflowsDir ctx)).

Definition generateMkdocs (ctx : Context) (example : Example) : G error :=
  let exampleMd := ParentDir example +:+ "/" +:+ Lower example +:+ ".md" in
  let indexMd := ParentDir example +:+ "/index.md" in
  does (UpdateMkdocs (MkdocsConfigFile ctx) (IsModule example) exampleMd indexMd)
       (mkdocs_UpdateConfig box (MkdocsConfigFile ctx) (IsModule example) exampleMd indexMd).

Definition generateDependabotUpdates (ctx : Context) (example : Example) : G error :=
  let directory := "/" +:+ ParentDir example +:+ "/" +:+ Lower example in
  does (UpdateDependabot (DependabotConfigFile ctx) directory "gomod")
       (dependabot_UpdateConfig box (DependabotConfigFile ctx) directory "gomod").

Definition generate (example : Example) (ctx : Context) : G error :=
  if Validate example is Some err then mret (Some err) else
  let outputDir := filepath_Join box [RootDir ctx; ParentDir example] in
  let docsOuputDir := filepath_Join box [DocsDir ctx; ParentDir example] in
  let exampleLower := Lower example in
  err ← does (MkdirAll (filepath_Join box [outputDir; exampleLower]) 448)
             (os_MkdirAll box (filepath_Join box [outputDir; exampleLower]) 448);
  if err is Some _ then mret err else
  '(err, deferred) ← render example outputDir docsOuputDir exampleLower templates [];
  err ← (if err is Some _ then mret err else
         err ← generateWorkFlow ctx;
         if err is Some _ then mret err else
         err ← generateMkdocs ctx example;
         if err is Some _ then mret err else
         generateDependabotUpdates ctx example);
  (* the deferred calls run when the function returns *)
  mapM (λ file, does (Close file) ()) deferred;;
  mret err.

(** [strconv.ParseBool]. *)
Definition strconv_ParseBool (s : string) : option bool :=
  if bool_decide (s ∈ ["1"; "t"; "T"; "TRUE"; "true"; "True"]) then Some true
  else if bool_decide (s ∈ ["0"; "f"; "F"; "FALSE"; "false"; "False"]) then Some false
  else None.

(** The value that a bool flag takes from a text that [flag.Parse]
    accepted for it. *)
Definition ParseBool (s : string) : bool := default false (strconv_ParseBool s).

(** How [flag.Parse] ends on the command line: with the flags set, after
    the help was asked for, or on an argument that it refuses. *)
Inductive Parse : Type :=
| Parsed (set : gmap string string)
| Help
| Failed (msg : string).

(** The name of a flag and its value when the argument has the form
    [name=value]: the name ends at the first [=]. *)
Fixpoint cutEquals (s : string) : string * option string :=
  match s with
  | EmptyString => (EmptyString, None)
  | String c rest =>
      if Ascii.eqb c "=" then (EmptyString, Some rest)
      else let '(name, value) := cutEquals rest in (String c name, value)
  end.

(** [flag.Parse()] on the arguments after the name of the program, with the
    four flags of [init]: [parseOne] is repeated until an argument that is
    not a flag, the argument [--], the end of the arguments or an error.
    [set] maps the flags seen so far to the value last given to each. *)
Fixpoint parse (args : list string) (set : gmap string string) : Parse :=
  match args with
  | [] => Parsed set
  | s :: rest =>
      match s with
      | String "-" (String c s') =>
          if Ascii.eqb c "-" && String.eqb s' "" then Parsed set else
          let name := if Ascii.eqb c "-" then s' else String c s' in
          match name with
          | EmptyString | String "-" _ | String "=" _ =>
              Failed ("bad flag syntax: " +:+ s)
          | _ =>
              let '(name, value) := cutEquals name in
              if bool_decide (name ∈ ["name"; "title"; "image"]) then
                match value, rest with
                | Some value, _ => parse rest (<[name := value]> set)
                | None, value :: rest => parse rest (<[name := value]> set)
                | None, [] => Failed ("flag needs an argument: -" +:+ name)
                end
              else if String.eqb name "as-module" then
                match value with
                | Some value =>
                    if strconv_ParseBool value is Some _
                    then parse rest (<[name := value]> set)
                    else Failed ("invalid boolean value " +:+ strconv_Quote box value +:+
                                 " for -" +:+ name +:+ ": parse error")
                | None => parse rest (<[name := "true"]> set)
                end
              else if String.eqb name "help" || String.eqb name "h" then Help
              else Failed ("flag provided but not defined: -" +:+ name)
          end
      | _ => Parsed set
      end
  end.

Definition flag_Parse (args : list string) : Parse := parse args ∅.

(** The variables of the flags after [flag.Parse]: a flag that was not
    given keeps its default. *)
Definition nameVar (set : gmap string string) : string := default "" (set !! "name").
Definition nameTitleVar (set : gmap string string) : string := default "" (set !! "title").
Definition imageVar (set : gmap string string) : string := default "" (set !! "image").
Definition asModuleVar (set : gmap string string) : bool :=
  if set !! "as-module" is Some v then ParseBool v else false.

(** The loop over [required]: the first required flag that was not seen. *)
Fixpoint missing (required : list string) (set : gmap string string) : option string :=
  match required with
  | [] => None
  | req :: rest => if set !! req is Some _ then missing rest set else Some req
  end.

(** [main] on the arguments of the command line, to the exit status of the
    program.  [flag.Parse] ends the program itself when the help is asked
    for, with status 0 after the usage, and on an argument that it refuses,
    with status 2 after the error and the usage. *)
Definition main (args : list string) : G Z :=
  let required := ["name"; "image"] in
  match flag_Parse args with
  | Help => does (Eprint (flag_usage box)) 0%Z
  | Failed msg =>
      does (Eprint (msg +:+ nl)) ();;
      does (Eprint (flag_usage box)) 2%Z
  | Parsed set =>
  if missing required set is Some req then
    does (Eprint ("missing required -" +:+ req +:+ " argument/flag" +:+ nl)) 2%Z
  else
  let '(currentDir, err) := filepath_Abs box (filepath_Dir box ".") in
  if err is Some _ then
    does (Print (">> could not get the root dir: " +:+ Error_text err +:+ nl)) 1%Z
  else
  let ctx := NewContext box (filepath_Dir box currentDir) in
  let '(latestVersion, err) := mkdocs_ReadConfig box (MkdocsConfigFile ctx) in
  if err is Some _ then
    does (Print (">> could not read MkDocs config: " +:+ Error_text err +:+ nl)) 1%Z
  else
  let example := {| Image := imageVar set; IsModule := asModuleVar set;
                    Name := nameVar set; TitleName := nameTitleVar set;
                    TCVersion := latestVersion |} in
  err ← generate example ctx;
  if err is Some _ then
    does (Print (">> error generating the example: " +:+ Error_text err +:+ nl)) 1%Z
  else
  let cmdDir := filepath_Join box [RootDir ctx; ParentDir example; Lower example] in
  err ← does (GoModTidy cmdDir) (tools_GoModTidy box cmdDir);
  if err is Some _ then
    does (Print (">> error synchronizing the dependencies: " +:+ Error_text err +:+ nl)) 1%Z
  else
  err ← does (GoVet cmdDir) (tools_GoVet box cmdDir);
  if err is Some _ then
    does (Print (">> error checking generated code: " +:+ Error_text err +:+ nl)) 1%Z
  else
  does (Print ("Please go to " +:+ cmdDir +:+ " directory to check the results, where 'go mod tidy' and 'go vet' was executed to synchronize the dependencies" +:+ nl)) ();;
  does (Print ("Commit the modified files and submit a pull request to include them into the project" +:+ nl)) ();;
  does (Print ("Thanks!" +:+ nl)) ();;
  mret 0%Z
  end.

End Generator.

(** A toolbox on a Unix file system where every operation succeeds, for the
    examples; the repository is checked out in [/repo] and the generator
    runs in [/repo/modulegen]. *)
Definition unix_Join (elems : list string) : string :=
  Compose.unix_Clean (strings_Join (filter (λ e, e ≠ "") elems) "/").

Definition unix_Dir (path : string) : string :=
  Compose.unix_Clean (Compose.unix_Split path).1.

Definition demoBox : Toolbox :=
  {| unicodeLower := λ s, s;   (* the examples lower ASCII names only *)
     filepath_Join := unix_Join;
     filepath_Dir := unix_Dir;
     filepath_Abs := Compose.unix_Abs "/repo/modulegen";
     os_MkdirAll := λ _ _, None;
     os_Create := λ _, None;
     template_ParseFiles := λ _ _, None;
     ExecuteTemplate := λ _ _ _, None;
     NewContext := λ root,
       {| RootDir := root;
          DocsDir := unix_Join [root; "docs"];
          MkdocsConfigFile := unix_Join [root; "mkdocs.yml"];
          DependabotConfigFile := unix_Join [root; ".github"; "dependabot.yml"];
          GithubWorkflowsDir := unix_Join [root; ".github"; "workflows"] |};
     GetExamples := λ _, None;
     GetModules := λ _, None;
     workflow_Generate := λ _, None;
     mkdocs_ReadConfig := λ _, ("v0.20.1", None);
     mkdocs_UpdateConfig := λ _ _ _ _, None;
     dependabot_UpdateConfig := λ _ _ _, None;
     tools_GoModTidy := λ _, None;
     tools_GoVet := λ _, None;
     os_Getwd := ("/repo/modulegen", None);
     strconv_Quote := λ s, String (ascii_of_nat 34) s +:+ String (ascii_of_nat 34) "";
     flag_usage := "Usage of modulegen:" +:+ nl |}.

(** The same toolbox on a file system where [go.mod] cannot be created. *)
Definition readOnlyGoMod : Toolbox :=
  {| unicodeLower := unicodeLower demoBox;
     filepath_Join := filepath_Join demoBox;
     filepath_Dir := filepath_Dir demoBox;
     filepath_Abs := filepath_Abs demoBox;
     os_MkdirAll := os_MkdirAll demoBox;
     os_Create := λ path,
       if String.eqb (Compose.unix_Split path).2 "go.mod"
       then Some ("open " +:+ path +:+ ": permission denied") else None;
     template_ParseFiles := template_ParseFiles demoBox;
     ExecuteTemplate := ExecuteTemplate demoBox;
     NewContext := NewContext demoBox;
     GetExamples := GetExamples demoBox;
     GetModules := GetModules demoBox;
     workflow_Generate := workflow_Generate demoBox;
     mkdocs_ReadConfig := mkdocs_ReadConfig demoBox;
     mkdocs_UpdateConfig := mkdocs_UpdateConfig demoBox;
     dependabot_UpdateConfig := dependabot_UpdateConfig demoBox;
     tools_GoModTidy := tools_GoModTidy demoBox;
     tools_GoVet := tools_GoVet demoBox;
     os_Getwd := os_Getwd demoBox;
     strconv_Quote := strconv_Quote demoBox;
     flag_usage := flag_usage demoBox |}.

(** *** The names an example gives to the templates

    [ContainerName] and [Title] ask two things of packages outside the
    repository: [lowerFirstRune s] is
    [string(unicode.ToLower(r)) + s[n:]] for [r, n :=
    utf8.DecodeRuneInString(s)] when [s] does not start with an ASCII byte,
    and [cases_Title] is [cases.Title(language.Und, cases.NoLower).String]. *)
Section Naming.
Context (box : Toolbox) (lowerFirstRune : string → string) (cases_Title : string → string).

(** The first rune in lower case, then the rest of the string: an ASCII
    byte is a rune of its own and is lowered as [unicode.ToLower] does. *)
Definition lowerFirst (s : string) : string :=
  match s with
  | String c rest => if byte_lt c 128 then String (lowerASCII c) rest else lowerFirstRune s
  | EmptyString => lowerFirstRune s
  end.

Definition Title (e : Example) : string :=
  if negb (String.eqb (TitleName e) "") then TitleName e
  else cases_Title (Lower box e).

(** ContainerName returns the name of the container, which is the lower-cased title of the example
    If the title is set, it will be used instead of the name *)
Definition ContainerName (e : Example) : string :=
  let name := Lower box e in
  let name :=
    if IsModule e then Title e
    else if negb (String.eqb (TitleName e) "") then lowerFirst (TitleName e)
    else name in
  name +:+ "Container".

(** Entrypoint returns the name of the entrypoint function, which is the lower-cased title of the example
    If the example is a module, the entrypoint will be "RunContainer" *)
Definition Entrypoint (e : Example) : string :=
  if IsModule e then "RunContainer" else "runContainer".

(** [Example.Type]. *)
Definition ExampleType (e : Example) : string :=
  if IsModule e then "module" else "example".

End Naming.

(** *** Reading the pattern and the log *)

Definition isLetter (c : ascii) : bool := in_class [upper; lower] c.
Definition isAlphanumerical (c : ascii) : bool := in_class [upper; lower; digit] c.

(** A letter followed by letters and digits, read off the string itself. *)
Definition letterThenAlphanumericals (s : string) : bool :=
  match s with
  | EmptyString => false
  | String c rest => isLetter c && string_forallb isAlphanumerical rest
  end.

(** The files created, the files closed and the configuration updates of
    a log, each in the order of the log.  A file is created by a call of
    [os.Create] that returns no error, and closed by [Close] on a file
    that is not nil. *)
Definition created (log : list Event) : list string :=
  omap (λ ev, if ev is Create path None then Some path else None) log.

Definition closed (log : list Event) : list string :=
  omap (λ ev, if ev is Close (Some path) then Some path else None) log.

(** The paths that [os.Create] was called with, the files it returned,
    nil for a call that failed, and the templates that were executed. *)
Definition requested (log : list Event) : list string :=
  omap (λ ev, if ev is Create path _ then Some path else None) log.

Definition files (log : list Event) : list (option string) :=
  omap (λ ev, match ev with
              | Create path None => Some (Some path)
              | Create path (Some _) => Some None
              | _ => None
              end) log.

Definition executed (log : list Event) : list string :=
  omap (λ ev, if ev is Execute name _ then Some name else None) log.

Definition updates (log : list Event) : list Event :=
  omap (λ ev, match ev with
              | UpdateWorkflow _ | UpdateMkdocs _ _ _ _ | UpdateDependabot _ _ _ => Some ev
              | _ => None
              end) log.

Definition checks (log : list Event) : list Event :=
  omap (λ ev, match ev with
              | GoModTidy _ | GoVet _ => Some ev
              | _ => None
              end) log.

(** The file a template is rendered to, as the loop of [generate] computes
    it. *)
Definition exampleFilePath (box : Toolbox) (example : Example) (ctx : Context)
    (tmpl : string) : string :=
  let outputDir := filepath_Join box [RootDir ctx; ParentDir example] in
  let docsOuputDir := filepath_Join box [DocsDir ctx; ParentDir example] in
  let exampleLower := Lower box example in
  if strings_EqualFold tmpl "docs_example.md"
  then filepath_Join box [docsOuputDir; exampleLower +:+ ".md"]
  else filepath_Join box [outputDir; exampleLower;
                          strings_ReplaceAll tmpl "example" exampleLower].

(** The three updates of the configuration that end [generate], in its
    order: the workflow, MkDocs and Dependabot. *)
Definition configUpdates (box : Toolbox) (example : Example) (ctx : Context) : list Event :=
  [UpdateWorkflow (GithubWorkflowsDir ctx);
   UpdateMkdocs (MkdocsConfigFile ctx) (IsModule example)
     (ParentDir example +:+ "/" +:+ Lower box example +:+ ".md")
     (ParentDir example +:+ "/index.md");
   UpdateDependabot (DependabotConfigFile ctx)
     ("/" +:+ ParentDir example +:+ "/" +:+ Lower box example) "gomod"].

End Modulegen.

(** * Properties *)

Import Compose.

(** ** Reasoning about runs *)
Section Runs.
Context {A B : Type}.
Implicit Types (m : Machine) (Q : result A → Machine → Prop).

Lemma always_ret (a : A) m Q : Q (Returned a) m → always (mret a) m Q.
Proof. intros HQ. apply Forall_singleton. exact HQ. Qed.

Lemma always_panic msg m Q : Q (Panicked msg) m → always (panic msg) m Q.
Proof. intros HQ. apply Forall_singleton. exact HQ. Qed.

Lemma always_bind (c : M A) (k : A → M B) m (Q : result B → Machine → Prop) :
  always c m (λ r m1,
    match r with
    | Returned a => always (k a) m1 Q
    | Panicked msg => Q (Panicked msg) m1
    end) →
  always (c ≫= k) m Q.
Proof.
  unfold always, mbind, M_bind. intros Hc.
  apply Forall_bind. eapply Forall_impl; [exact Hc|].
  intros [[a|msg] m1]; simpl; [tauto|].
  intros HQ. apply Forall_singleton. exact HQ.
Qed.

Lemma always_mono (c : M A) m Q Q' :
  always c m Q → (∀ r m', Q r m' → Q' r m') → always c m Q'.
Proof. intros Hc HQ. eapply Forall_impl; [exact Hc|]. intros [r m']. apply HQ. Qed.

Lemma always_and (c : M A) m Q Q' :
  always c m Q → always c m Q' → always c m (λ r m', Q r m' ∧ Q' r m').
Proof.
  unfold always. rewrite !Forall_forall. intros H1 H2 o Ho. split; auto.
Qed.

Lemma always_eq (c c' : M A) m Q : c m = c' m → always c' m Q → always c m Q.
Proof. unfold always. by intros ->. Qed.

Lemma always_inhabited (c : M A) m Q : c m ≠ [] → always c m Q → ∃ r m', Q r m'.
Proof.
  unfold always. destruct (c m) as [|[r m'] rest]; [done|].
  intros _ HQ. apply Forall_cons_1 in HQ as [HQ _]. eauto.
Qed.

End Runs.

(** ** The scheduler *)
Section Scheduler.
Context (proc : Process).
Implicit Types (m : Machine).

Lemma schedule_runs fuel m m' : m' ∈ schedule proc fuel m → runs proc m m'.
Proof.
  revert m. induction fuel as [|fuel IH]; intros m; simpl.
  - intros ->%list_elem_of_singleton. constructor.
  - intros [->|Hin]%elem_of_cons; [constructor|].
    apply list_elem_of_bind in Hin as ([i t] & Hin & Hit).
    apply elem_of_lookup_imap in Hit as (j & u & [= -> ->] & Hj).
    eapply runs_finish; [exact Hj|]. apply IH, Hin.
Qed.

Lemma always_yield m (Q : result () → Machine → Prop) :
  (∀ m', runs proc m m' → Q (Returned ()) m') → always (yield proc) m Q.
Proof.
  intros HQ. unfold always, yield. apply Forall_fmap, Forall_forall.
  intros m' Hin. simpl. apply HQ. eapply schedule_runs, Hin.
Qed.

Lemma runs_trans m1 m2 m3 : runs proc m1 m2 → runs proc m2 m3 → runs proc m1 m3.
Proof.
  induction 1 as [|m i t m' Hi _ IH]; [done|].
  intros H3. eapply runs_finish; [exact Hi|]. apply IH, H3.
Qed.

Lemma observe_finish i t m : observe (finish proc i t m) = observe m.
Proof.
  unfold observe, finish, calls, started, tees, goroutines. simpl.
  rewrite !omap_app, length_insert. simpl. by rewrite !app_nil_r.
Qed.

Lemma runs_observe m m' : runs proc m m' → observe m' = observe m.
Proof.
  induction 1 as [|m i t m' _ _ IH]; [done|]. by rewrite IH, observe_finish.
Qed.

Lemma runs_pending m m' t : runs proc m m' → t ∈ pending m' → t ∈ pending m.
Proof.
  induction 1 as [|m i u m' _ _ IH]; [done|].
  intros Ht. apply IH in Ht. simpl in Ht.
  eapply elem_of_sublist; [exact Ht|]. apply sublist_delete.
Qed.

Lemma runs_wf m m' : runs proc m m' → wf m → wf m'.
Proof.
  induction 1 as [|m i t m' _ _ IH]; [done|].
  intros Hwf. apply IH. unfold wf in *. simpl.
  rewrite length_insert. by apply Forall_delete.
Qed.

Lemma runs_private x v m m' : runs proc m m' → private x v m → private x v m'.
Proof.
  induction 1 as [|m i t m' Hi _ IH]; [done|].
  intros [Hx Hts]. apply IH. split; simpl.
  - rewrite list_lookup_insert_ne; [exact Hx|].
    eapply Forall_lookup_1 in Hts; [|exact Hi]. exact Hts.
  - by apply Forall_delete.
Qed.

Lemma runs_shared x c s m m' : runs proc m m' → shared proc x c s m → shared proc x c s m'.
Proof.
  induction 1 as [|m i t m' Hi _ IH]; [done|].
  intros [Hx Hts]. apply IH. split; simpl.
  - pose proof (Forall_lookup_1 _ _ _ _ Hts Hi) as Ht. simpl in Ht.
    destruct (decide (task_var t = x)) as [Heq|Hne].
    + destruct (Ht Heq) as [-> ->]. right. subst x.
      apply list_lookup_insert_eq.
      destruct Hx as [Hx|Hx]; eapply lookup_lt_Some, Hx.
    + rewrite !list_lookup_insert_ne by exact Hne. exact Hx.
  - by apply Forall_delete.
Qed.

End Scheduler.

(** ** The steps of the calling goroutine *)
Section Steps.
Context (proc : Process).
Implicit Types (m : Machine).

Lemma always_emit ev m (Q : result () → Machine → Prop) :
  Q (Returned ()) (logged ev m) → always (emit ev) m Q.
Proof. intros HQ. apply Forall_singleton, HQ. Qed.

Lemma always_declare m (Q : result nat → Machine → Prop) :
  Q (Returned (length (heap m)))
    {| trace := trace m; heap := heap m ++ [None]; pending := pending m |} →
  always declare m Q.
Proof. intros HQ. apply Forall_singleton, HQ. Qed.

Lemma always_newWriter s m (Q : result () → Machine → Prop) :
  (∀ m', runs proc m m' → Q (Returned ()) (logged (EvNewTee s) m')) →
  always (newWriter proc s) m Q.
Proof.
  intros HQ. apply always_bind, always_yield. intros m' Hm'.
  apply always_emit, HQ, Hm'.
Qed.

Lemma always_Start c m (Q : result error → Machine → Prop) :
  (∀ m', runs proc m m' →
         Q (Returned (cmd_Start proc c)) (logged (EvStart c (cmd_Start proc c)) m')) →
  always (Start proc c) m Q.
Proof.
  intros HQ. apply always_bind, always_yield. intros m' Hm'.
  apply always_bind, always_emit, always_ret, HQ, Hm'.
Qed.

Lemma always_Wait c m (Q : result error → Machine → Prop) :
  (∀ m', runs proc m m' →
         Q (Returned (cmd_Wait proc c)) (logged (EvWait c (cmd_Wait proc c)) m')) →
  always (Wait proc c) m Q.
Proof.
  intros HQ. apply always_bind, always_yield. intros m' Hm'.
  apply always_bind, always_emit, always_ret, HQ, Hm'.
Qed.

Lemma always_spawn t m (Q : result () → Machine → Prop) :
  (∀ m', runs proc m m' →
         Q (Returned ()) {| trace := trace m' ++ [EvGo (task_stream t)];
                            heap := heap m'; pending := pending m' ++ [t] |}) →
  always (spawn proc t) m Q.
Proof.
  intros HQ. apply always_bind, always_yield. intros m' Hm'.
  apply Forall_singleton, HQ, Hm'.
Qed.

Lemma always_read x m (Q : result error → Machine → Prop) :
  (∀ m', runs proc m m' → Q (Returned (default None (heap m' !! x))) m') →
  always (read proc x) m Q.
Proof.
  intros HQ. apply always_bind, always_yield. intros m' Hm'.
  apply Forall_singleton, HQ, Hm'.
Qed.

(** The facts about a machine that survive a run of the scheduler. *)
Lemma runs_observed m m' cs ps ts gs n :
  runs proc m m' → observe m = (cs, ps, ts, gs, n) → observe m' = (cs, ps, ts, gs, n).
Proof. intros Hr <-. eapply runs_observe, Hr. Qed.

Lemma private_declared x v m :
  private x v m → x < length (heap m) →
  private x v {| trace := trace m; heap := heap m ++ [None]; pending := pending m |}.
Proof.
  intros [Hx Hts] Hlt. split; simpl; [|exact Hts].
  rewrite lookup_app_l by exact Hlt. exact Hx.
Qed.

Lemma private_fresh m :
  wf m →
  private (length (heap m)) None
    {| trace := trace m; heap := heap m ++ [None]; pending := pending m |}.
Proof.
  intros Hwf. split; simpl.
  - rewrite lookup_app_r by lia. by rewrite Nat.sub_diag.
  - eapply Forall_impl; [exact Hwf|]. simpl. intros t Ht. lia.
Qed.

Lemma wf_declared m :
  wf m → wf {| trace := trace m; heap := heap m ++ [None]; pending := pending m |}.
Proof.
  intros Hwf. unfold wf. simpl. rewrite length_app. simpl.
  eapply Forall_impl; [exact Hwf|]. simpl. intros t Ht. lia.
Qed.

Lemma private_read x v m : private x v m → default None (heap m !! x) = v.
Proof. intros [-> _]. done. Qed.

Lemma shared_read x c s m :
  shared proc x c s m →
  default None (heap m !! x) = None ∨ default None (heap m !! x) = io_Copy proc c s.
Proof. intros [[-> | ->] _]; simpl; auto. Qed.

(** A [go] statement that captures [x] turns the private cell into the
    shared one; the other cells stay as they are. *)
Lemma shared_spawned x c s m tr :
  private x None m →
  shared proc x c s
    {| trace := tr; heap := heap m;
       pending := pending m ++ [{| task_cmd := c; task_stream := s; task_var := x |}] |}.
Proof.
  intros [Hx Hts]. split; simpl; [by left|].
  apply Forall_app. split.
  - eapply Forall_impl; [exact Hts|]. simpl. intros t Hne Heq. done.
  - apply Forall_singleton. done.
Qed.

Lemma private_spawned x v y c s m tr :
  private x v m → x ≠ y →
  private x v
    {| trace := tr; heap := heap m;
       pending := pending m ++ [{| task_cmd := c; task_stream := s; task_var := y |}] |}.
Proof.
  intros [Hx Hts] Hne. split; simpl; [exact Hx|].
  apply Forall_app. split; [exact Hts|]. apply Forall_singleton. simpl. done.
Qed.

Lemma shared_spawned_other x c s y c' s' m tr :
  shared proc x c s m → x ≠ y →
  shared proc x c s
    {| trace := tr; heap := heap m;
       pending := pending m ++ [{| task_cmd := c'; task_stream := s'; task_var := y |}] |}.
Proof.
  intros [Hx Hts] Hne. split; simpl; [exact Hx|].
  apply Forall_app. split; [exact Hts|]. apply Forall_singleton. simpl. done.
Qed.

Lemma wf_spawned t m tr :
  wf m → task_var t < length (heap m) →
  wf {| trace := tr; heap := heap m; pending := pending m ++ [t] |}.
Proof.
  intros Hwf Hlt. unfold wf. simpl. apply Forall_app. split; [exact Hwf|].
  apply Forall_singleton, Hlt.
Qed.

Lemma observe_tee s m cs ps ts gs n :
  observe m = (cs, ps, ts, gs, n) →
  observe (logged (EvNewTee s) m) = (cs, ps, ts ++ [s], gs, n).
Proof.
  unfold observe, calls, started, tees, goroutines. simpl.
  rewrite !omap_app. simpl. rewrite !app_nil_r. by intros [= -> -> -> -> ->].
Qed.

Lemma observe_start c err m cs ps ts gs n :
  observe m = (cs, ps, ts, gs, n) →
  observe (logged (EvStart c err) m) =
    (cs, ps ++ (if err is Some _ then [] else [c]), ts, gs, n).
Proof.
  unfold observe, calls, started, tees, goroutines. simpl.
  rewrite !omap_app. simpl. rewrite !app_nil_r.
  intros [= -> -> -> -> ->]. by destruct err.
Qed.

Lemma observe_wait c err m cs ps ts gs n :
  observe m = (cs, ps, ts, gs, n) →
  observe (logged (EvWait c err) m) = (cs, ps, ts, gs, n).
Proof.
  unfold observe, calls, started, tees, goroutines. simpl.
  rewrite !omap_app. simpl. rewrite !app_nil_r. by intros [= -> -> -> -> ->].
Qed.

Lemma observe_go t m cs ps ts gs n :
  observe m = (cs, ps, ts, gs, n) →
  observe {| trace := trace m ++ [EvGo (task_stream t)]; heap := heap m;
             pending := pending m ++ [t] |} =
    (cs, ps, ts, gs ++ [task_stream t], n).
Proof.
  unfold observe, calls, started, tees, goroutines. simpl.
  rewrite !omap_app. simpl. rewrite !app_nil_r. by intros [= -> -> -> -> ->].
Qed.

End Steps.

(** The facts about [ma] carried through a run [H : runs proc ma mb] of the
    scheduler. *)
(** The same facts about a machine [m'] that differs in its trace only. *)
Ltac relog m' :=
  repeat match goal with
  | Hp : private ?x ?v ?mk |- _ =>
      lazymatch mk with m' => fail | _ => change (private x v m') in Hp end
  | Hs : shared ?p ?x ?c ?s ?mk |- _ =>
      lazymatch mk with m' => fail | _ => change (shared p x c s m') in Hs end
  | Hw : wf ?mk |- _ =>
      lazymatch mk with m' => fail | _ => change (wf m') in Hw end
  end.

Ltac through H :=
  match type of H with
  | runs _ ?ma ?mb =>
      repeat match goal with
      | Hp : private _ _ ma |- _ => apply (runs_private _ _ _ _ _ H) in Hp
      | Hs : shared _ _ _ _ ma |- _ => apply (runs_shared _ _ _ _ _ _ H) in Hs
      | Hw : wf ma |- _ => apply (runs_wf _ _ _ H) in Hw
      | Ho : observe ma = _ |- _ => apply (runs_observed _ _ _ _ _ _ _ _ H) in Ho
      end
  end.

(** ** The Process Runner *)
Section ProcessRunner.
Context (host : Platform) (proc : Process).
Implicit Types (m : Machine).

(** What [execute] does in every schedule: it logs the call and creates the
    two tees; when the process does not start it returns the start error
    with no goroutine started; when it starts, the two readers are started,
    the error is the one of [Wait], and each copy-error field holds nil or
    the error of the reader. *)
Lemma execute_always dirContext environment binary args m :
  wf m →
  always (execute host proc dirContext environment binary args) m (λ r m',
    let cmd := command host dirContext environment binary args in
    calls (trace m') = calls (trace m) ++
      [{| call_dir := dirContext; call_environment := environment;
          call_binary := binary; call_args := args |}] ∧
    tees (trace m') = tees (trace m) ++ [StdoutStream; StderrStream] ∧
    wf m' ∧
    match cmd_Start proc cmd with
    | Some why =>
        r = Returned {| Error := Some why; Stdout := None; Stderr := None |} ∧
        started (trace m') = started (trace m) ∧
        goroutines (trace m') = goroutines (trace m) ∧
        (∀ t, t ∈ pending m' → t ∈ pending m)
    | None =>
        (∃ so se,
           r = Returned {| Error := cmd_Wait proc cmd; Stdout := so; Stderr := se |} ∧
           (so = None ∨ so = io_Copy proc cmd StdoutStream) ∧
           (se = None ∨ se = io_Copy proc cmd StderrStream)) ∧
        started (trace m') = started (trace m) ++ [cmd] ∧
        goroutines (trace m') = goroutines (trace m) ++ [StdoutStream; StderrStream]
    end).
Proof.
  intros Hwf. unfold execute.
  set (cmd := command host dirContext environment binary args).
  destruct (observe m) as [[[[cs ps] ts] gs] n] eqn:Hobs.
  assert (Hcs : calls (trace m) = cs) by (by injection Hobs).
  assert (Hps : started (trace m) = ps) by (by injection Hobs).
  assert (Hts : tees (trace m) = ts) by (by injection Hobs).
  assert (Hgs : goroutines (trace m) = gs) by (by injection Hobs).
  rewrite Hcs, Hps, Hts, Hgs. clear Hcs Hps Hts Hgs.
  apply always_bind, always_emit.
  apply always_bind, always_declare.
  apply always_bind, always_declare. simpl.
  set (x := length (heap m)).
  set (y := length (heap m ++ [None])).
  set (m2 := {| trace := _; heap := (heap m ++ [None]) ++ [None]; pending := pending m |}).
  assert (Hxy : x ≠ y) by (unfold x, y; rewrite length_app; simpl; lia).
  assert (Hx : private x None m2).
  { apply (private_declared x None
             {| trace := trace m ++ [EvExecute dirContext environment binary args];
                heap := heap m ++ [None]; pending := pending m |}).
    - apply (private_fresh (logged _ m)). exact Hwf.
    - simpl. rewrite length_app. simpl. lia. }
  assert (Hy : private y None m2).
  { apply (private_fresh
             {| trace := trace m ++ [EvExecute dirContext environment binary args];
                heap := heap m ++ [None]; pending := pending m |}).
    apply (wf_declared (logged _ m)). exact Hwf. }
  assert (Hwf2 : wf m2).
  { apply (wf_declared {| trace := _; heap := heap m ++ [None]; pending := pending m |}).
    apply (wf_declared (logged _ m)). exact Hwf. }
  assert (Hobs2 : observe m2 =
    (cs ++ [{| call_dir := dirContext; call_environment := environment;
               call_binary := binary; call_args := args |}], ps, ts, gs, S (S n))).
  { revert Hobs. unfold observe, m2, calls, started, tees, goroutines. simpl.
    rewrite !omap_app, !length_app. simpl. rewrite !app_nil_r.
    intros [= <- <- <- <- <-]. repeat f_equal. lia. }
  assert (Hpend : ∀ t, t ∈ pending m2 → t ∈ pending m) by done.
  assert (Hlen : x < S (S n) ∧ y < S (S n)).
  { revert Hobs. unfold observe, x, y. rewrite length_app. simpl.
    intros [= _ _ _ _ <-]. lia. }
  clearbody m2 x y. clear Hobs Hwf.
  (* the two tees *)
  apply always_bind, always_newWriter. intros m3 H3. through H3.
  assert (Hpend3 : ∀ t, t ∈ pending m3 → t ∈ pending m)
    by (intros t Ht; eapply Hpend, runs_pending; eauto).
  apply observe_tee with (s := StdoutStream) in Hobs2.
  relog (logged (EvNewTee StdoutStream) m3).
  apply always_bind, always_newWriter. intros m4 H4. through H4.
  assert (Hpend4 : ∀ t, t ∈ pending m4 → t ∈ pending m)
    by (intros t Ht; eapply Hpend3, (runs_pending _ _ _ _ H4); eauto).
  apply observe_tee with (s := StderrStream) in Hobs2.
  relog (logged (EvNewTee StderrStream) m4).
  (* the start of the process *)
  apply always_bind, always_Start. intros m5 H5. through H5.
  assert (Hpend5 : ∀ t, t ∈ pending m5 → t ∈ pending m)
    by (intros t Ht; eapply Hpend4, (runs_pending _ _ _ _ H5); eauto).
  apply observe_start with (c := cmd) (err := cmd_Start proc cmd) in Hobs2.
  relog (logged (EvStart cmd (cmd_Start proc cmd)) m5).
  destruct (cmd_Start proc cmd) as [why|] eqn:Hstart.
  - (* it did not start *)
    apply always_bind, always_read. intros m6 H6. through H6.
    pose proof (private_read _ _ _ Hy) as Ey.
    assert (Hpend6 : ∀ t, t ∈ pending m6 → t ∈ pending m)
      by (intros t Ht; eapply Hpend5, (runs_pending _ _ _ _ H6); eauto).
    apply always_bind, always_read. intros m7 H7. through H7.
    pose proof (private_read _ _ _ Hx) as Ex.
    apply always_ret. simpl. rewrite Ex, Ey.
    injection Hobs2 as Hcs Hps Hts Hgs _.
    rewrite Hcs, Hps, Hts, Hgs, app_nil_r, <- app_assoc.
    repeat split; try done.
    intros t Ht. eapply Hpend6, (runs_pending _ _ _ _ H7), Ht.
  - (* it started: the two readers, then the wait *)
    assert (Hlen5 : length (heap m5) = S (S n)) by (by injection Hobs2).
    apply always_bind, always_spawn. intros m6 H6. through H6. simpl.
    assert (Hlen6 : length (heap m6) = S (S n)) by (by injection Hobs2).
    apply (shared_spawned proc x cmd StdoutStream m6
             (trace m6 ++ [EvGo StdoutStream])) in Hx.
    apply (private_spawned y None x cmd StdoutStream m6
             (trace m6 ++ [EvGo StdoutStream])) in Hy; [|done].
    apply (wf_spawned {| task_cmd := cmd; task_stream := StdoutStream; task_var := x |}
             m6 (trace m6 ++ [EvGo StdoutStream])) in Hwf2; [|simpl; lia].
    apply (observe_go {| task_cmd := cmd; task_stream := StdoutStream; task_var := x |})
      in Hobs2. simpl in Hobs2.
    apply always_bind, always_spawn. intros m7 H7. through H7. simpl.
    assert (Hlen7 : length (heap m7) = S (S n)) by (by injection Hobs2).
    apply (shared_spawned_other proc x cmd StdoutStream y cmd StderrStream m7
             (trace m7 ++ [EvGo StderrStream])) in Hx; [|done].
    apply (shared_spawned proc y cmd StderrStream m7
             (trace m7 ++ [EvGo StderrStream])) in Hy.
    apply (wf_spawned {| task_cmd := cmd; task_stream := StderrStream; task_var := y |}
             m7 (trace m7 ++ [EvGo StderrStream])) in Hwf2; [|simpl; lia].
    apply (observe_go {| task_cmd := cmd; task_stream := StderrStream; task_var := y |})
      in Hobs2. simpl in Hobs2.
    apply always_bind, always_Wait. intros m8 H8. through H8.
    apply observe_wait with (c := cmd) (err := cmd_Wait proc cmd) in Hobs2.
    relog (logged (EvWait cmd (cmd_Wait proc cmd)) m8).
    apply always_bind, always_read. intros m9 H9. through H9.
    pose proof (shared_read _ _ _ _ _ Hy) as Ey.
    apply always_bind, always_read. intros m10 H10. through H10.
    pose proof (shared_read _ _ _ _ _ Hx) as Ex.
    apply always_ret. simpl.
    injection Hobs2 as Hcs Hps Hts Hgs _. simpl in Hgs.
    rewrite Hcs, Hps, Hts, Hgs, <- !app_assoc.
    repeat split; try done.
    eexists _, _. split; [reflexivity|]. split; [exact Ex|exact Ey].
Qed.

End ProcessRunner.

(** ** Schedules that exist *)
Section Schedules.
Context (host : Platform) (proc : Process).
Implicit Types (m : Machine).

Lemma schedule_head fuel m : m ∈ schedule proc fuel m.
Proof. destruct fuel; simpl; apply elem_of_cons; by left. Qed.

Lemma runs_schedule m m' : runs proc m m' → m' ∈ schedule proc (length (pending m)) m.
Proof.
  induction 1 as [m|m i t m' Hi _ IH]; [apply schedule_head|].
  pose proof (lookup_lt_Some _ _ _ Hi) as Hlt.
  simpl in IH. rewrite length_delete in IH by eauto.
  destruct (length (pending m)) as [|k] eqn:Hk; [lia|].
  simpl in IH. rewrite Nat.sub_0_r in IH. simpl.
  apply elem_of_cons. right. apply list_elem_of_bind.
  exists (i, t). split; [exact IH|].
  apply elem_of_lookup_imap. eauto.
Qed.

Lemma yield_in m m' : runs proc m m' → (Returned (), m') ∈ yield proc m.
Proof.
  intros Hr. unfold yield. apply list_elem_of_fmap.
  exists m'. split; [done|]. apply runs_schedule, Hr.
Qed.

Lemma bind_in {A B : Type} (c : M A) (k : A → M B) a m m1 o :
  (Returned a, m1) ∈ c m → o ∈ k a m1 → o ∈ (c ≫= k) m.
Proof.
  intros Hc Hk. unfold mbind, M_bind. apply list_elem_of_bind.
  exists (Returned a, m1). split; [exact Hk|exact Hc].
Qed.

Lemma ret_in {A : Type} (a : A) m : (Returned a, m) ∈ (mret a : M A) m.
Proof. apply list_elem_of_singleton. reflexivity. Qed.

Lemma newWriter_in s m m' :
  runs proc m m' → (Returned (), logged (EvNewTee s) m') ∈ newWriter proc s m.
Proof.
  intros Hr. eapply bind_in; [apply yield_in, Hr|].
  apply list_elem_of_singleton. reflexivity.
Qed.

Lemma Start_in c m m' :
  runs proc m m' →
  (Returned (cmd_Start proc c), logged (EvStart c (cmd_Start proc c)) m') ∈ Start proc c m.
Proof.
  intros Hr. eapply bind_in; [apply yield_in, Hr|].
  eapply bind_in; [apply list_elem_of_singleton; reflexivity|]. apply ret_in.
Qed.

Lemma Wait_in c m m' :
  runs proc m m' →
  (Returned (cmd_Wait proc c), logged (EvWait c (cmd_Wait proc c)) m') ∈ Wait proc c m.
Proof.
  intros Hr. eapply bind_in; [apply yield_in, Hr|].
  eapply bind_in; [apply list_elem_of_singleton; reflexivity|]. apply ret_in.
Qed.

Lemma spawn_in t m m' :
  runs proc m m' →
  (Returned (), {| trace := trace m' ++ [EvGo (task_stream t)]; heap := heap m';
                   pending := pending m' ++ [t] |}) ∈ spawn proc t m.
Proof.
  intros Hr. eapply bind_in; [apply yield_in, Hr|].
  apply list_elem_of_singleton. reflexivity.
Qed.

Lemma read_in x m m' :
  runs proc m m' → (Returned (default None (heap m' !! x)), m') ∈ read proc x m.
Proof.
  intros Hr. eapply bind_in; [apply yield_in, Hr|].
  apply list_elem_of_singleton. reflexivity.
Qed.

(** The schedule in which [execute] returns before either reader has
    finished. *)
Lemma execute_early dirContext environment binary args m :
  let cmd := command host dirContext environment binary args in
  let x := length (heap m) in
  cmd_Start proc cmd = None →
  (Returned {| Error := cmd_Wait proc cmd; Stdout := None; Stderr := None |},
   {| trace := trace m ++
        [EvExecute dirContext environment binary args;
         EvNewTee StdoutStream; EvNewTee StderrStream; EvStart cmd None;
         EvGo StdoutStream; EvGo StderrStream; EvWait cmd (cmd_Wait proc cmd)];
      heap := heap m ++ [None; None];
      pending := pending m ++
        [{| task_cmd := cmd; task_stream := StdoutStream; task_var := x |};
         {| task_cmd := cmd; task_stream := StderrStream; task_var := S x |}] |})
  ∈ execute host proc dirContext environment binary args m.
Proof.
  intros cmd x Hstart. unfold execute. fold cmd.
  eapply bind_in; [apply list_elem_of_singleton; reflexivity|].
  eapply bind_in; [apply list_elem_of_singleton; reflexivity|].
  eapply bind_in; [apply list_elem_of_singleton; reflexivity|].
  eapply bind_in; [apply newWriter_in, runs_done|].
  eapply bind_in; [apply newWriter_in, runs_done|].
  eapply bind_in; [apply Start_in, runs_done|].
  rewrite Hstart.
  eapply bind_in; [apply spawn_in, runs_done|].
  eapply bind_in; [apply spawn_in, runs_done|].
  eapply bind_in; [apply Wait_in, runs_done|].
  eapply bind_in; [apply read_in, runs_done|].
  eapply bind_in; [apply read_in, runs_done|].
  unfold logged. simpl. rewrite length_app. simpl.
  replace (length (heap m) + 1) with (S (length (heap m))) by lia.
  rewrite <- !app_assoc. simpl.
  rewrite (lookup_app_r (heap m) _ (S (length (heap m)))) by lia.
  rewrite (lookup_app_r (heap m) _ (length (heap m))) by lia.
  replace (S (length (heap m)) - length (heap m)) with 1 by lia.
  rewrite Nat.sub_diag. simpl.
  apply list_elem_of_singleton. reflexivity.
Qed.

(** When the process does not start, [execute] returns at once. *)
Lemma execute_unstarted dirContext environment binary args m why :
  let cmd := command host dirContext environment binary args in
  cmd_Start proc cmd = Some why →
  (Returned {| Error := Some why; Stdout := None; Stderr := None |},
   {| trace := trace m ++
        [EvExecute dirContext environment binary args;
         EvNewTee StdoutStream; EvNewTee StderrStream; EvStart cmd (Some why)];
      heap := heap m ++ [None; None];
      pending := pending m |})
  ∈ execute host proc dirContext environment binary args m.
Proof.
  intros cmd Hstart. unfold execute. fold cmd.
  eapply bind_in; [apply list_elem_of_singleton; reflexivity|].
  eapply bind_in; [apply list_elem_of_singleton; reflexivity|].
  eapply bind_in; [apply list_elem_of_singleton; reflexivity|].
  eapply bind_in; [apply newWriter_in, runs_done|].
  eapply bind_in; [apply newWriter_in, runs_done|].
  eapply bind_in; [apply Start_in, runs_done|].
  rewrite Hstart.
  eapply bind_in; [apply read_in, runs_done|].
  eapply bind_in; [apply read_in, runs_done|].
  unfold logged. simpl. rewrite length_app. simpl.
  replace (length (heap m) + 1) with (S (length (heap m))) by lia.
  rewrite <- !app_assoc. simpl.
  rewrite (lookup_app_r (heap m) _ (S (length (heap m)))) by lia.
  rewrite (lookup_app_r (heap m) _ (length (heap m))) by lia.
  replace (S (length (heap m)) - length (heap m)) with 1 by lia.
  rewrite Nat.sub_diag. simpl.
  apply list_elem_of_singleton. reflexivity.
Qed.

Lemma execute_nonempty dirContext environment binary args m :
  execute host proc dirContext environment binary args m ≠ [].
Proof.
  destruct (cmd_Start proc (command host dirContext environment binary args))
    as [why|] eqn:Hstart; intros Hnil.
  - pose proof (execute_unstarted dirContext environment binary args m why Hstart) as Hin.
    rewrite Hnil in Hin. by apply elem_of_nil in Hin.
  - pose proof (execute_early dirContext environment binary args m Hstart) as Hin.
    rewrite Hnil in Hin. by apply elem_of_nil in Hin.
Qed.

(** The schedule in which both readers finish after the wait and before
    the result is built. *)
Lemma execute_late dirContext environment binary args m :
  let cmd := command host dirContext environment binary args in
  cmd_Start proc cmd = None →
  ∃ m',
    (Returned {| Error := cmd_Wait proc cmd;
                 Stdout := io_Copy proc cmd StdoutStream;
                 Stderr := io_Copy proc cmd StderrStream |}, m')
    ∈ execute host proc dirContext environment binary args m ∧
    pending m' = pending m.
Proof.
  intros cmd Hstart. unfold execute. fold cmd.
  set (x := length (heap m)).
  set (tx := {| task_cmd := cmd; task_stream := StdoutStream; task_var := x |}).
  set (ty := {| task_cmd := cmd; task_stream := StderrStream; task_var := S x |}).
  set (m8 := logged (EvWait cmd (cmd_Wait proc cmd))
    {| trace := (((((trace m ++ [EvExecute dirContext environment binary args])
                   ++ [EvNewTee StdoutStream]) ++ [EvNewTee StderrStream])
                   ++ [EvStart cmd None]) ++ [EvGo StdoutStream]) ++ [EvGo StderrStream];
       heap := (heap m ++ [None]) ++ [None];
       pending := (pending m ++ [tx]) ++ [ty] |}).
  set (i := length (pending m)).
  set (m9 := finish proc i ty (finish proc i tx m8)).
  assert (Hrun : runs proc m8 m9).
  { eapply (runs_finish proc m8 i tx).
    { simpl. rewrite <- app_assoc. simpl.
      rewrite lookup_app_r by (unfold i; lia). unfold i. by rewrite Nat.sub_diag. }
    eapply (runs_finish proc _ i ty); [|apply runs_done].
    simpl. rewrite <- app_assoc. simpl. unfold i.
    rewrite delete_middle. rewrite lookup_app_r by lia.
    by rewrite Nat.sub_diag. }
  exists m9. split.
  - eapply bind_in; [apply list_elem_of_singleton; reflexivity|].
    eapply bind_in; [apply list_elem_of_singleton; reflexivity|].
    eapply bind_in; [apply list_elem_of_singleton; reflexivity|].
    eapply bind_in; [apply newWriter_in, runs_done|].
    eapply bind_in; [apply newWriter_in, runs_done|].
    eapply bind_in; [apply Start_in, runs_done|].
    rewrite Hstart.
    eapply bind_in; [apply spawn_in, runs_done|].
    eapply bind_in; [apply spawn_in, runs_done|].
    eapply bind_in; [apply Wait_in, runs_done|].
    simpl. rewrite length_app. simpl.
    replace (length (heap m) + 1) with (S x) by (unfold x; lia). fold x tx ty.
    eapply bind_in; [apply read_in, Hrun|].
    eapply bind_in; [apply read_in, runs_done|].
    assert (Hy : heap m9 !! S x = Some (io_Copy proc cmd StderrStream)).
    { simpl. apply list_lookup_insert_eq.
      rewrite length_insert, !length_app. simpl. unfold x. lia. }
    assert (Hx : heap m9 !! x = Some (io_Copy proc cmd StdoutStream)).
    { simpl. rewrite list_lookup_insert_ne by lia. apply list_lookup_insert_eq.
      rewrite !length_app. simpl. unfold x. lia. }
    rewrite Hx, Hy. simpl. apply list_elem_of_singleton. reflexivity.
  - simpl. rewrite <- app_assoc. simpl. unfold i. rewrite delete_middle.
    rewrite delete_middle. apply app_nil_r.
Qed.

End Schedules.

(** ** The Compose Driver *)
Section ComposeDriver.
Context (host : Platform).

Lemma string_app_assoc (s1 s2 s3 : string) : (s1 +:+ s2) +:+ s3 = s1 +:+ (s2 +:+ s3).
Proof.
  induction s1 as [|c s1 IH]; [done|].
  change (String c ((s1 +:+ s2) +:+ s3) = String c (s1 +:+ (s2 +:+ s3))).
  by rewrite IH.
Qed.

Lemma absLoop_closed cfps : ∀ i abs,
  length abs = i + length cfps →
  absLoop host i cfps abs = take i abs ++ absolute host cfps.
Proof.
  induction cfps as [|cfp rest IH]; intros i abs Hlen; simpl in *.
  - rewrite app_nil_r, take_ge; [done|lia].
  - rewrite IH by (rewrite length_insert; lia).
    rewrite (take_S_r _ _ (filepath_Abs host cfp).1).
    + rewrite take_insert_ge by lia. by rewrite <- app_assoc.
    + apply list_lookup_insert_eq. lia.
Qed.

(** The constructor caches the absolute form of every path, in order. *)
Lemma constructed_paths filePaths identifier :
  absComposeFilePaths (NewLocalDockerCompose host filePaths identifier) =
  absolute host filePaths.
Proof.
  simpl. rewrite absLoop_closed; [done|]. by rewrite length_replicate.
Qed.

(** The configuration calls change the command and the overlay only. *)
Lemma configured_fields dc cs :
  Executable (configured dc cs) = Executable dc ∧
  absComposeFilePaths (configured dc cs) = absComposeFilePaths dc ∧
  Identifier (configured dc cs) = Identifier dc.
Proof.
  revert dc. induction cs as [|c cs IH]; intros dc; [done|].
  unfold configured in *. simpl. destruct (IH (configure dc c)) as (-> & -> & ->).
  by destruct c.
Qed.

Lemma fileList_fold sep paths acc :
  foldl (λ value abs, value +:+ (abs +:+ sep)) acc paths = acc +:+ fileList sep paths.
Proof.
  revert acc. induction paths as [|abs rest IH]; intros acc; cbn [foldl fileList].
  - induction acc as [|c acc IHacc]; [done|].
    change (String c acc = String c (acc +:+ "")). by rewrite <- IHacc.
  - by rewrite IH, !string_app_assoc.
Qed.

Lemma fileFlags_fold paths acc :
  foldl (λ cmds abs, cmds ++ ["-f"; abs]) acc paths = acc ++ fileFlags paths.
Proof.
  revert acc. induction paths as [|abs rest IH]; intros acc; simpl.
  - by rewrite app_nil_r.
  - rewrite IH. by rewrite <- app_assoc.
Qed.

Lemma overlay_fold (base user : gmap string string) :
  map_fold (λ k v environment, <[k := v]> environment) base user = user ∪ base.
Proof.
  apply (map_fold_weak_ind (λ r (u : gmap string string), r = u ∪ base)).
  - by rewrite (left_id_L ∅ (∪)).
  - intros k v u r _ ->. by rewrite insert_union_l.
Qed.

Lemma environment_closed dc :
  getDockerComposeEnvironment host dc =
  <[envComposeFile := fileList (String (PathListSeparator host) "") (absComposeFilePaths dc)]>
    (<[envProjectName := Identifier dc]> ∅).
Proof. unfold getDockerComposeEnvironment. by rewrite fileList_fold. Qed.

End ComposeDriver.

(** ** Paths on Unix *)

(** [unix_Split] cuts a path in two after its last slash: the directory
    and the file put together are the path, and the file has no slash. *)
Lemma unix_Split_joins path : (unix_Split path).1 +:+ (unix_Split path).2 = path.
Proof.
  induction path as [|c rest IH]; [done|]. simpl.
  destruct (unix_Split rest) as [dir file]. simpl in IH.
  destruct dir as [|d dir].
  - change ("" +:+ file) with file in IH. subst rest.
    destruct (Ascii.eqb c "/") eqn:Hc; [|done].
    apply Ascii.eqb_eq in Hc as ->. done.
  - change (String c (String d dir +:+ file) = String c rest). by rewrite IH.
Qed.

Lemma unix_Split_file path :
  string_forallb (λ c, negb (Ascii.eqb c "/")) (unix_Split path).2 = true.
Proof.
  induction path as [|c rest IH]; [done|]. simpl.
  destruct (unix_Split rest) as [dir file]. simpl in IH.
  destruct dir as [|d dir]; [|exact IH].
  destruct (Ascii.eqb c "/") eqn:Hc; simpl; [exact IH|]. by rewrite Hc.
Qed.

Section ComposeRuns.
Context (host : Platform) (proc : Process).
Implicit Types (m : Machine) (dc : LocalDockerCompose).

(** [executeCompose] after the preflight check, with the loops in closed
    form. *)
Lemma executeCompose_found dc args m :
  which host (Executable dc) = None →
  executeCompose host proc dc args m =
  (execErr ← execute host proc
               (workingDirectory host (absComposeFilePaths dc))
               (Env dc ∪ getDockerComposeEnvironment host dc)
               (Executable dc)
               (arguments (absComposeFilePaths dc) args);
   if Error execErr is Some why then panic (exitedAbnormally dc why)
   else mret execErr) m.
Proof.
  intros Hwhich. unfold executeCompose. rewrite Hwhich, overlay_fold.
  unfold arguments, workingDirectory, mbind, M_bind.
  assert (Htail : ∀ o : result ExecError * Machine,
    (let '(r, m') := o in
     match r with
     | Returned execErr =>
         (if Error execErr is Some _
          then panic ("Local Docker compose exited abnormally whilst running " +:+
                      Executable dc +:+ ": [" +:+ strings_Join (Cmd dc) " " +:+
                      "]. " +:+ Error_text (Error execErr))
          else mret execErr) m'
     | Panicked msg => [(Panicked msg, m')]
     end) =
    (let '(r, m') := o in
     match r with
     | Returned execErr =>
         (if Error execErr is Some why then panic (exitedAbnormally dc why)
          else mret execErr) m'
     | Panicked msg => [(Panicked msg, m')]
     end)).
  { intros [[execErr|msg] m']; [|done]. by destruct (Error execErr). }
  destruct (absComposeFilePaths dc) as [|first rest] eqn:Habs; simpl.
  - apply list_bind_ext; [exact Htail|done].
  - rewrite (fileFlags_fold rest ["-f"; first]).
    apply list_bind_ext; [exact Htail|done].
Qed.

Lemma executeCompose_always dc args m :
  wf m → which host (Executable dc) = None →
  always (executeCompose host proc dc args) m (λ r m',
    let dir := workingDirectory host (absComposeFilePaths dc) in
    let environment := Env dc ∪ getDockerComposeEnvironment host dc in
    let cmds := arguments (absComposeFilePaths dc) args in
    let cmd := command host dir environment (Executable dc) cmds in
    calls (trace m') = calls (trace m) ++
      [{| call_dir := dir; call_environment := environment;
          call_binary := Executable dc; call_args := cmds |}] ∧
    tees (trace m') = tees (trace m) ++ [StdoutStream; StderrStream] ∧
    match cmd_Start proc cmd with
    | Some why =>
        r = Panicked (exitedAbnormally dc why) ∧ started (trace m') = started (trace m)
    | None =>
        started (trace m') = started (trace m) ++ [cmd] ∧
        match cmd_Wait proc cmd with
        | Some why => r = Panicked (exitedAbnormally dc why)
        | None => ∃ so se, r = Returned {| Error := None; Stdout := so; Stderr := se |}
        end
    end).
Proof.
  intros Hwf Hwhich.
  eapply always_eq; [apply executeCompose_found, Hwhich|].
  apply always_bind.
  eapply always_mono; [apply execute_always, Hwf|].
  intros r m' (Hcalls & Htees & _ & Hres). simpl in Hres.
  destruct (cmd_Start proc _) as [why|] eqn:Hstart.
  - destruct Hres as (-> & Hst & _). simpl.
    apply always_panic. rewrite Hstart. done.
  - destruct Hres as ((so & se & -> & _) & Hst & _). simpl.
    destruct (cmd_Wait proc _) as [why|] eqn:Hwait.
    + apply always_panic. rewrite Hstart. done.
    + apply always_ret. rewrite Hstart. eauto 10.
Qed.

Lemma executeCompose_nonempty dc args m : executeCompose host proc dc args m ≠ [].
Proof.
  destruct (which host (Executable dc)) as [why|] eqn:Hwhich.
  - unfold executeCompose. rewrite Hwhich. done.
  - rewrite (executeCompose_found dc args m Hwhich).
    unfold mbind, M_bind. intros Hnil.
    destruct (execute host proc (workingDirectory host (absComposeFilePaths dc))
                (Env dc ∪ getDockerComposeEnvironment host dc) (Executable dc)
                (arguments (absComposeFilePaths dc) args) m)
      as [|[[x|msg] m1] rest] eqn:Hex.
    + by apply execute_nonempty in Hex.
    + simpl in Hnil. destruct (Error x); simpl in Hnil; discriminate Hnil.
    + simpl in Hnil. discriminate Hnil.
Qed.

(** The machine stays well formed through an operation, so the facts below
    hold for every operation of a program that starts from [boot]. *)
Lemma executeCompose_wf dc args m :
  wf m → always (executeCompose host proc dc args) m (λ _ m', wf m').
Proof.
  intros Hwf. destruct (which host (Executable dc)) as [why|] eqn:Hwhich.
  - unfold executeCompose. rewrite Hwhich. apply always_panic, Hwf.
  - eapply always_eq; [apply executeCompose_found, Hwhich|].
    apply always_bind.
    eapply always_mono; [apply execute_always, Hwf|].
    intros [x|msg] m' (_ & _ & Hwf' & _); [|exact Hwf'].
    destruct (Error x); [apply always_panic|apply always_ret]; exact Hwf'.
Qed.

Lemma perform_tokens op dc :
  perform host proc op dc = executeCompose host proc dc (tokens op dc).
Proof. by destruct op. Qed.

End ComposeRuns.

(** ** The claims about the Compose Driver *)
Section ComposeClaims.
Context (host : Platform) (proc : Process).
Implicit Types (m : Machine) (dc : LocalDockerCompose).

(** The call that a terminal operation of a constructed and configured
    driver makes, in every schedule. *)
Lemma perform_call filePaths identifier cs op m :
  let dc := configured (NewLocalDockerCompose host filePaths identifier) cs in
  wf m → which host (Executable dc) = None →
  always (perform host proc op dc) m (λ r m',
    calls (trace m') = calls (trace m) ++
      [{| call_dir := workingDirectory host (absolute host filePaths);
          call_environment :=
            Env dc ∪ computed host identifier (absolute host filePaths);
          call_binary := Executable dc;
          call_args := arguments (absolute host filePaths) (tokens op dc) |}]).
Proof.
  intros dc Hwf Hwhich. rewrite perform_tokens.
  eapply always_mono; [apply executeCompose_always; [exact Hwf|exact Hwhich]|].
  intros r m' (Hcalls & _). simpl in Hcalls. rewrite Hcalls.
  rewrite environment_closed.
  destruct (configured_fields (NewLocalDockerCompose host filePaths identifier) cs)
    as (_ & Habs & Hid).
  fold dc in Habs, Hid. rewrite Habs, Hid, constructed_paths. done.
Qed.

(** C1 (amended): in every invocation the argument list is the [-f] pairs of
    the configured files in construction order, each with the path cached
    at construction, or the single pair [-f docker-compose.yml] when no file
    was configured, followed by the command tokens of the operation: the
    configured command for Invoke, the fixed token [down] for Down. *)
Theorem compose_arguments filePaths identifier cs op m :
  let dc := configured (NewLocalDockerCompose host filePaths identifier) cs in
  wf m → which host (Executable dc) = None →
  perform host proc op dc m ≠ [] ∧
  always (perform host proc op dc) m (λ r m',
    ∃ c, calls (trace m') = calls (trace m) ++ [c] ∧
         call_args c =
           (if filePaths is [] then ["-f"; "docker-compose.yml"]
            else fileFlags ((λ cfp, (filepath_Abs host cfp).1) <$> filePaths))
           ++ match op with DownOp => ["down"] | InvokeOp => Cmd dc end).
Proof.
  intros dc Hwf Hwhich. split.
  { rewrite perform_tokens. apply executeCompose_nonempty. }
  eapply always_mono; [apply perform_call; [exact Hwf|exact Hwhich]|].
  intros r m' Hcalls. eexists. split; [exact Hcalls|]. simpl.
  unfold arguments, absolute, tokens. by destruct filePaths, op.
Qed.

(** C2: in every invocation the environment overlay is the user-configured
    overlay merged on top of the two computed variables, the project name
    bound to the lower-cased identifier and the file list bound to every
    cached path followed by the path-list separator; an entry of the user
    overlay wins over a computed one of the same name. *)
Theorem compose_environment filePaths identifier cs op m :
  let dc := configured (NewLocalDockerCompose host filePaths identifier) cs in
  let paths := (λ cfp, (filepath_Abs host cfp).1) <$> filePaths in
  let fixed := computed host identifier paths in
  wf m → which host (Executable dc) = None →
  perform host proc op dc m ≠ [] ∧
  fixed !! "COMPOSE_PROJECT_NAME" = Some (strings_ToLower (unicodeLower host) identifier) ∧
  fixed !! "COMPOSE_FILE" = Some (fileList (String (PathListSeparator host) "") paths) ∧
  always (perform host proc op dc) m (λ r m',
    ∃ c, calls (trace m') = calls (trace m) ++ [c] ∧
         call_environment c = Env dc ∪ fixed ∧
         (∀ k v, Env dc !! k = Some v → call_environment c !! k = Some v) ∧
         (∀ k, Env dc !! k = None → call_environment c !! k = fixed !! k)).
Proof.
  intros dc paths fixed Hwf Hwhich. split; [|split; [|split]].
  - rewrite perform_tokens. apply executeCompose_nonempty.
  - unfold fixed, computed. rewrite lookup_insert_ne by done.
    apply lookup_insert_eq.
  - unfold fixed, computed. apply lookup_insert_eq.
  - eapply always_mono; [apply perform_call; [exact Hwf|exact Hwhich]|].
    intros r m' Hcalls. eexists. split; [exact Hcalls|]. simpl.
    split; [done|]. split.
    + intros k v Hk. by apply lookup_union_Some_l.
    + intros k Hk. by apply lookup_union_r.
Qed.

(** C7: in every invocation the working directory is the directory part of
    the absolute path cached for the first configured file, and the current
    directory ["."] when no file was configured.  The operation calls the
    Process Runner with it, the command that the Process Runner builds has
    it as its field [Dir], and when that command starts, it is the one
    process that the operation adds to the started processes, so the
    external process runs in that directory; when the command does not
    start, no process is added. *)
Theorem compose_working_directory filePaths identifier cs op m :
  let dc := configured (NewLocalDockerCompose host filePaths identifier) cs in
  let pwd := match filePaths with
             | [] => "."
             | first :: _ => (filepath_Split host (filepath_Abs host first).1).1
             end in
  wf m → which host (Executable dc) = None →
  perform host proc op dc m ≠ [] ∧
  always (perform host proc op dc) m (λ r m',
    ∃ c, calls (trace m') = calls (trace m) ++ [c] ∧
         call_dir c = pwd ∧
         Dir (command host (call_dir c) (call_environment c) (call_binary c)
                (call_args c)) = pwd ∧
         (∀ p, p ∈ started (trace m') → p ∈ started (trace m) ∨ Dir p = pwd) ∧
         match cmd_Start proc (command host (call_dir c) (call_environment c)
                                 (call_binary c) (call_args c)) with
         | None =>
             started (trace m') = started (trace m) ++
               [command host (call_dir c) (call_environment c) (call_binary c)
                  (call_args c)]
         | Some _ => started (trace m') = started (trace m)
         end).
Proof.
  intros dc pwd Hwf Hwhich. split.
  { rewrite perform_tokens. apply executeCompose_nonempty. }
  rewrite perform_tokens.
  eapply always_mono; [apply executeCompose_always; [exact Hwf|exact Hwhich]|].
  intros r m' (Hcalls & _ & Hst). simpl in Hcalls, Hst.
  assert (Hpwd : workingDirectory host (absComposeFilePaths dc) = pwd).
  { destruct (configured_fields (NewLocalDockerCompose host filePaths identifier) cs)
      as (_ & Habs & _).
    fold dc in Habs. rewrite Habs, constructed_paths. by destruct filePaths. }
  eexists. split; [exact Hcalls|]. simpl.
  split; [exact Hpwd|]. split; [exact Hpwd|].
  destruct (cmd_Start proc _).
  - destruct Hst as [_ Hst]. split; [|exact Hst].
    intros p Hp. rewrite Hst in Hp. by left.
  - destruct Hst as [Hst _]. split; [|exact Hst].
    intros p Hp. rewrite Hst in Hp.
    apply elem_of_app in Hp as [Hp|Hp]; [by left|].
    apply list_elem_of_singleton in Hp as ->. by right.
Qed.

(** C9: a driver constructed with no compose file still binds the file-list
    variable in its computed environment, to the empty string, while its
    argument list falls back to [-f docker-compose.yml]; the overlay handed
    to [execute] has the variable, with the empty string unless the user
    overlay binds it. *)
Theorem compose_file_variable_without_files identifier cs op m :
  let dc := configured (NewLocalDockerCompose host [] identifier) cs in
  wf m → which host (Executable dc) = None →
  getDockerComposeEnvironment host dc !! "COMPOSE_FILE" = Some "" ∧
  perform host proc op dc m ≠ [] ∧
  always (perform host proc op dc) m (λ r m',
    ∃ c, calls (trace m') = calls (trace m) ++ [c] ∧
         call_environment c !! "COMPOSE_FILE" =
           Some (default "" (Env dc !! "COMPOSE_FILE")) ∧
         call_args c = ["-f"; "docker-compose.yml"] ++ tokens op dc).
Proof.
  intros dc Hwf Hwhich.
  destruct (configured_fields (NewLocalDockerCompose host [] identifier) cs)
    as (_ & Habs & _).
  fold dc in Habs. rewrite constructed_paths in Habs. split; [|split].
  - rewrite environment_closed, Habs. apply lookup_insert_eq.
  - rewrite perform_tokens. apply executeCompose_nonempty.
  - eapply always_mono; [apply perform_call; [exact Hwf|exact Hwhich]|].
    intros r m' Hcalls. eexists. split; [exact Hcalls|]. simpl.
    split; [|done].
    destruct (Env dc !! "COMPOSE_FILE") as [v|] eqn:Hv; simpl.
    + by apply lookup_union_Some_l.
    + rewrite lookup_union_r by exact Hv. apply lookup_insert_eq.
Qed.

(** C5: when the configured executable is not found on the search path, a
    terminal operation panics and leaves the machine as it was: no call of
    the Process Runner, no process started and no tee created. *)
Theorem preflight_halts dc op m why :
  which host (Executable dc) = Some why →
  perform host proc op dc m =
    [(Panicked ("Local Docker Compose not found. Is " +:+ Executable dc +:+
                " on the PATH?"), m)].
Proof.
  intros Hwhich. rewrite perform_tokens. unfold executeCompose.
  by rewrite Hwhich.
Qed.

(** C6: a terminal operation returns a result only with a nil top-level
    error; when the process is started and its wait reports an error, every
    outcome is a panic that carries the text of that error. *)
Theorem wait_failure_halts dc op m :
  let cmd := command host (workingDirectory host (absComposeFilePaths dc))
               (Env dc ∪ getDockerComposeEnvironment host dc) (Executable dc)
               (arguments (absComposeFilePaths dc) (tokens op dc)) in
  wf m → which host (Executable dc) = None →
  perform host proc op dc m ≠ [] ∧
  always (perform host proc op dc) m (λ r m',
    (∀ execErr, r = Returned execErr →
       Error execErr = None ∧ cmd_Start proc cmd = None ∧ cmd_Wait proc cmd = None) ∧
    (∀ why, cmd_Start proc cmd = None → cmd_Wait proc cmd = Some why →
       r = Panicked ("Local Docker compose exited abnormally whilst running " +:+
                     Executable dc +:+ ": [" +:+ strings_Join (Cmd dc) " " +:+
                     "]. " +:+ why) ∧
       started (trace m') = started (trace m) ++ [cmd])).
Proof.
  intros cmd Hwf Hwhich. rewrite perform_tokens. split.
  { apply executeCompose_nonempty. }
  eapply always_mono; [apply executeCompose_always; [exact Hwf|exact Hwhich]|].
  intros r m' (_ & _ & Hres). simpl in Hres. fold cmd in Hres.
  destruct (cmd_Start proc cmd) as [why|].
  - destruct Hres as [-> _]. split; [by intros x [=]|]. by intros why' [=].
  - destruct Hres as [Hst Hres]. destruct (cmd_Wait proc cmd) as [why|].
    + subst r. split; [by intros x [=]|]. by intros why' _ [= <-].
    + destruct Hres as (so & se & ->). split; [by intros x [= <-]|]. by intros why' _ [=].
Qed.

End ComposeClaims.

(** ** The claims about the Process Runner *)
Section RunnerClaims.
Context (host : Platform) (proc : Process).
Implicit Types (m : Machine).

(** C4: when the process fails to start, [execute] returns, in every
    schedule, the start error in the top-level field and nil in both
    copy-error fields; no [go] statement was executed, so no reader was
    started, and no goroutine is pending that was not pending before. *)
Theorem start_failure_result dirContext environment binary args m why :
  wf m →
  cmd_Start proc (command host dirContext environment binary args) = Some why →
  execute host proc dirContext environment binary args m ≠ [] ∧
  always (execute host proc dirContext environment binary args) m (λ r m',
    r = Returned {| Error := Some why; Stdout := None; Stderr := None |} ∧
    goroutines (trace m') = goroutines (trace m) ∧
    started (trace m') = started (trace m) ∧
    ∀ t, t ∈ pending m' → t ∈ pending m).
Proof.
  intros Hwf Hstart. split; [apply execute_nonempty|].
  eapply always_mono; [apply execute_always, Hwf|].
  intros r m' (_ & _ & _ & Hres). simpl in Hres. rewrite Hstart in Hres.
  destruct Hres as (-> & Hst & Hgo & Hpend). done.
Qed.

(** C8: when the process starts, [execute] returns after the wait, with the
    error of the wait, and does not join the readers: in every schedule
    each copy-error field holds nil or the error of its reader; in one
    schedule the function returns with both fields nil while both readers
    are still pending, whatever their copies will return; in another both
    readers have finished and the fields hold their errors. *)
Theorem readers_not_joined dirContext environment binary args m :
  let cmd := command host dirContext environment binary args in
  let reader s x := {| task_cmd := cmd; task_stream := s; task_var := x |} in
  wf m → cmd_Start proc cmd = None →
  always (execute host proc dirContext environment binary args) m (λ r m',
    (∃ so se,
       r = Returned {| Error := cmd_Wait proc cmd; Stdout := so; Stderr := se |} ∧
       (so = None ∨ so = io_Copy proc cmd StdoutStream) ∧
       (se = None ∨ se = io_Copy proc cmd StderrStream)) ∧
    goroutines (trace m') = goroutines (trace m) ++ [StdoutStream; StderrStream]) ∧
  possibly (execute host proc dirContext environment binary args) m (λ r m',
    r = Returned {| Error := cmd_Wait proc cmd; Stdout := None; Stderr := None |} ∧
    last (trace m') = Some (EvWait cmd (cmd_Wait proc cmd)) ∧
    pending m' = pending m ++ [reader StdoutStream (length (heap m));
                               reader StderrStream (S (length (heap m)))]) ∧
  possibly (execute host proc dirContext environment binary args) m (λ r m',
    r = Returned {| Error := cmd_Wait proc cmd;
                    Stdout := io_Copy proc cmd StdoutStream;
                    Stderr := io_Copy proc cmd StderrStream |} ∧
    pending m' = pending m).
Proof.
  intros cmd reader Hwf Hstart. split; [|split].
  - eapply always_mono; [apply execute_always, Hwf|].
    intros r m' (_ & _ & _ & Hres). simpl in Hres. fold cmd in Hres.
    rewrite Hstart in Hres. destruct Hres as (Hr & _ & Hgo). done.
  - apply Exists_exists. eexists. split.
    + apply (execute_early host proc dirContext environment binary args m Hstart).
    + simpl. split; [done|]. split; [|done].
      by rewrite last_app.
  - destruct (execute_late host proc dirContext environment binary args m Hstart)
      as (m' & Hin & Hpend).
    apply Exists_exists. eexists. split; [exact Hin|]. done.
Qed.

End RunnerClaims.

(** ** The claim about the Output Tee *)
Section TeeClaims.
Import Tee.
Context {W : Type} `{Writer W}.

(** One write: the buffer grows by the bytes written, and the destination
    takes the same bytes and decides the result. *)
Lemma Write_step (t : capturingPassThroughWriter W) (d : list byte) :
  Bytes (Write t d).1 = Bytes t ++ d ∧
  (w (Write t d).1, (Write t d).2) = io_Write (w t) d.
Proof. unfold Write, Bytes. destruct (io_Write (w t) d) as [w' res]. done. Qed.

(** C3: after any sequence of writes to a tee, [Bytes] returns what it
    returned before followed by the written byte sequences in order (their
    concatenation alone for a new tee), and the destination is in the
    state, and the calls returned the results, of the same sequence of
    writes made to the destination itself. *)
Theorem tee_writes (ds : list (list byte)) :
  (∀ t : capturingPassThroughWriter W,
     Bytes (writeAll t ds).1 = Bytes t ++ concat ds ∧
     (w (writeAll t ds).1, (writeAll t ds).2) = writeAll (w t) ds) ∧
  ∀ dst : W,
    Bytes (writeAll (newCapturingPassThroughWriter dst) ds).1 = concat ds ∧
    (w (writeAll (newCapturingPassThroughWriter dst) ds).1,
     (writeAll (newCapturingPassThroughWriter dst) ds).2) = writeAll dst ds.
Proof.
  assert (Hall : ∀ t : capturingPassThroughWriter W,
     Bytes (writeAll t ds).1 = Bytes t ++ concat ds ∧
     (w (writeAll t ds).1, (writeAll t ds).2) = writeAll (w t) ds).
  { induction ds as [|d rest IH]; intros t; simpl.
    - by rewrite app_nil_r.
    - destruct (Write_step t d) as [Hbuf Hdst].
      unfold io_Write at 1 2 3, tee_Writer.
      destruct (Write t d) as [t1 res]. simpl in Hbuf, Hdst.
      destruct (IH t1) as [Hbuf1 Hdst1].
      destruct (writeAll t1 rest) as [t2 ress]. simpl in *.
      rewrite <- Hdst. rewrite <- Hdst1. split; [|done].
      by rewrite Hbuf1, Hbuf, <- app_assoc. }
  split; [exact Hall|]. intros dst. apply (Hall (newCapturingPassThroughWriter dst)).
Qed.

End TeeClaims.

(** ** The claim about the module generator *)
Section GeneratorClaims.
Import Modulegen.
Context (box : Toolbox).

(** The pattern has a leading letter, so the empty string does not match. *)
Lemma empty_not_alphanumerical : MatchString alphanumerical "" = false.
Proof. reflexivity. Qed.

Lemma Validate_empty_title (e : Example) :
  TitleName e = "" → ∃ err, Validate e = Some err.
Proof.
  intros Htitle. unfold Validate.
  destruct (MatchString alphanumerical (Name e)); simpl; [|eauto].
  rewrite Htitle, empty_not_alphanumerical. simpl. eauto.
Qed.

(** A run of [main] whose command line is accepted and leaves the title
    unset: one message, and a non-zero exit status. *)
Lemma main_without_title (args : list string) (set : gmap string string)
    (log : list Event) :
  flag_Parse box args = Parsed set → set !! "title" = None →
  ∃ code text,
    (main box args log = (code, log ++ [Print text]) ∨
     main box args log = (code, log ++ [Eprint text])) ∧ code ≠ 0%Z.
Proof.
  intros Hparse Hset. unfold main. rewrite Hparse.
  destruct (missing ["name"; "image"] set) as [req|].
  { eexists 2%Z, _. split; [right; reflexivity|done]. }
  destruct (filepath_Abs box (filepath_Dir box ".")) as [currentDir [err|]].
  { eexists 1%Z, _. split; [left; reflexivity|done]. }
  destruct (mkdocs_ReadConfig box _) as [latestVersion [err|]].
  { eexists 1%Z, _. split; [left; reflexivity|done]. }
  set (example := {| Image := imageVar set; IsModule := asModuleVar set;
                     Name := nameVar set; TitleName := nameTitleVar set;
                     TCVersion := latestVersion |}).
  assert (Hex : TitleName example = "")
    by (simpl; unfold nameTitleVar; by rewrite Hset).
  destruct (Validate_empty_title example Hex) as [err Herr].
  unfold mbind, G_bind, generate. rewrite Herr. simpl.
  eexists 1%Z, _. split; [left; reflexivity|done].
Qed.

(** C10: [Validate] returns an error for every example whose title is the
    empty string; [generate] then returns that error with nothing done, no
    directory or file created; a run of [main] on a command line that
    [flag.Parse] accepts and that does not set the title flag ends with a
    non-zero exit status after printing one message and doing nothing else;
    and on every command line that does not set the title flag, also one
    that [flag.Parse] ends the program on, [main] only prints messages and
    creates no directory and no file. *)
Theorem empty_title_rejected (e : Example) (ctx : Context)
    (args : list string) (set : gmap string string) (log : list Event) :
  TitleName e = "" → flag_Parse box args = Parsed set → set !! "title" = None →
  (∃ err, Validate e = Some err ∧ generate box e ctx log = (Some err, log)) ∧
  (∃ code text,
     (main box args log = (code, log ++ [Print text]) ∨
      main box args log = (code, log ++ [Eprint text])) ∧ code ≠ 0%Z) ∧
  (∀ args',
     (∀ set', flag_Parse box args' = Parsed set' → set' !! "title" = None) →
     ∃ code evs,
       main box args' log = (code, log ++ evs) ∧
       Forall (λ ev, ∃ text, ev = Print text ∨ ev = Eprint text) evs).
Proof.
  intros Htitle Hparse Hset. split; [|split].
  - destruct (Validate_empty_title e Htitle) as [err Herr].
    exists err. split; [exact Herr|]. unfold generate. by rewrite Herr.
  - destruct (main_without_title args set log Hparse Hset)
      as (code & text & Hmain & Hcode).
    by exists code, text.
  - intros args' Hargs'. unfold main.
    destruct (flag_Parse box args') as [set'| |msg] eqn:Hparse'.
    + destruct (main_without_title args' set' log Hparse' (Hargs' set' eq_refl))
        as (code & text & Hmain & _).
      unfold main in Hmain. rewrite Hparse' in Hmain.
      exists code. destruct Hmain as [Hmain|Hmain]; rewrite Hmain.
      * exists [Print text]. split; [done|]. apply Forall_singleton. eauto.
      * exists [Eprint text]. split; [done|]. apply Forall_singleton. eauto.
    + eexists 0%Z, [_]. split; [reflexivity|]. apply Forall_singleton. eauto.
    + eexists 2%Z, [_; _]. split.
      * unfold mbind, G_bind, does. by rewrite <- app_assoc.
      * repeat constructor; eauto.
Qed.

End GeneratorClaims.

(** ** The claims at concrete inputs *)

(** C1 as stated fails for Down: with the command [up -d] configured and no
    compose file, Down runs [-f docker-compose.yml down], and the configured
    tokens do not follow the pair. *)
Lemma compose_arguments_counterexample :
  ¬ arguments_as_stated demoHost (exits None None None) DownOp
      [] "MyProject" [SetCommand ["up"; "-d"]] boot.
Proof.
  unfold arguments_as_stated. intros Hstated.
  pose proof (perform_call demoHost (exits None None None) [] "MyProject"
                [SetCommand ["up"; "-d"]] DownOp boot
                (Forall_nil_2 _) eq_refl) as Hcode.
  destruct (always_inhabited _ _ _
              (executeCompose_nonempty demoHost (exits None None None) _ ["down"] boot)
              (always_and _ _ _ _ Hstated Hcode))
    as (r & m' & (c & Hc & Hargs) & Hcall).
  rewrite Hcall in Hc. simpl in Hc. injection Hc as <-.
  vm_compute in Hargs. discriminate Hargs.
Qed.

Lemma compose_arguments_witness :
  wf boot ∧ which demoHost (Executable (demo demoHost)) = None ∧
  Invoke demoHost (exits None None None) (demo demoHost) boot ≠ [] ∧
  always (Invoke demoHost (exits None None None) (demo demoHost)) boot (λ r m',
    ∃ c, calls (trace m') = [c] ∧
         call_args c = ["-f"; "/work/testdata/docker-compose.yml"; "up"; "-d"]).
Proof.
  assert (Hwf : wf boot) by apply Forall_nil_2.
  assert (Hwhich : which demoHost (Executable (demo demoHost)) = None) by reflexivity.
  split; [exact Hwf|]. split; [exact Hwhich|].
  destruct (compose_arguments demoHost (exits None None None)
              ["./testdata/docker-compose.yml"] "MyProject" [SetCommand ["up"; "-d"]]
              InvokeOp boot Hwf Hwhich) as [Hne Hall].
  split; [exact Hne|].
  eapply always_mono; [exact Hall|].
  intros r m' (c & Hc & Hargs). exists c. split; [exact Hc|]. exact Hargs.
Defined.

Lemma compose_environment_witness :
  wf boot ∧ which demoHost (Executable (demoOverlay demoHost)) = None ∧
  always (Invoke demoHost (exits None None None) (demoOverlay demoHost)) boot (λ r m',
    ∃ c, calls (trace m') = [c] ∧
         call_environment c !! "COMPOSE_PROJECT_NAME" = Some "other" ∧
         call_environment c !! "COMPOSE_FILE" = Some "/work/testdata/docker-compose.yml:").
Proof.
  assert (Hwf : wf boot) by apply Forall_nil_2.
  assert (Hwhich : which demoHost (Executable (demoOverlay demoHost)) = None)
    by reflexivity.
  split; [exact Hwf|]. split; [exact Hwhich|].
  destruct (compose_environment demoHost (exits None None None)
              ["./testdata/docker-compose.yml"] "MyProject"
              [SetCommand ["up"; "-d"]; SetEnv {[ "COMPOSE_PROJECT_NAME" := "other" ]}]
              InvokeOp boot Hwf Hwhich) as (_ & _ & Hfile & Hall).
  eapply always_mono; [exact Hall|].
  intros r m' (c & Hc & _ & Huser & Hfixed). exists c. split; [exact Hc|]. split.
  - apply Huser. reflexivity.
  - rewrite Hfixed by reflexivity. rewrite Hfile. reflexivity.
Defined.

Lemma compose_working_directory_witness :
  wf boot ∧ which demoHost (Executable (demo demoHost)) = None ∧
  always (Invoke demoHost (exits None None None) (demo demoHost)) boot (λ r m',
    ∃ c p, calls (trace m') = [c] ∧ call_dir c = "/work/testdata/" ∧
           started (trace m') = [p] ∧ Dir p = "/work/testdata/").
Proof.
  assert (Hwf : wf boot) by apply Forall_nil_2.
  assert (Hwhich : which demoHost (Executable (demo demoHost)) = None) by reflexivity.
  split; [exact Hwf|]. split; [exact Hwhich|].
  destruct (compose_working_directory demoHost (exits None None None)
              ["./testdata/docker-compose.yml"] "MyProject" [SetCommand ["up"; "-d"]]
              InvokeOp boot Hwf Hwhich) as [_ Hall].
  eapply always_mono; [exact Hall|].
  intros r m' (c & Hc & Hdir & Hcmd & _ & Hstarted). exists c. eexists.
  split; [exact Hc|]. split; [exact Hdir|].
  split; [exact Hstarted|exact Hcmd].
Defined.

Lemma compose_file_variable_without_files_witness :
  wf boot ∧
  which demoHost (Executable (configured (NewLocalDockerCompose demoHost [] "MyProject")
                                [SetCommand ["up"]])) = None ∧
  getDockerComposeEnvironment demoHost
    (configured (NewLocalDockerCompose demoHost [] "MyProject") [SetCommand ["up"]])
    !! "COMPOSE_FILE" = Some "" ∧
  always (Invoke demoHost (exits None None None)
            (configured (NewLocalDockerCompose demoHost [] "MyProject") [SetCommand ["up"]]))
    boot (λ r m',
      ∃ c, calls (trace m') = [c] ∧
           call_environment c !! "COMPOSE_FILE" = Some "" ∧
           call_args c = ["-f"; "docker-compose.yml"; "up"]).
Proof.
  assert (Hwf : wf boot) by apply Forall_nil_2.
  assert (Hwhich :
    which demoHost (Executable (configured (NewLocalDockerCompose demoHost [] "MyProject")
                                  [SetCommand ["up"]])) = None) by reflexivity.
  split; [exact Hwf|]. split; [exact Hwhich|].
  destruct (compose_file_variable_without_files demoHost (exits None None None)
              "MyProject" [SetCommand ["up"]] InvokeOp boot Hwf Hwhich)
    as (Hvar & _ & Hall).
  split; [exact Hvar|]. exact Hall.
Defined.

Lemma preflight_halts_witness :
  which bareHost (Executable (demo bareHost)) =
    Some "exec: docker-compose: executable file not found in $PATH" ∧
  Invoke bareHost (exits None None None) (demo bareHost) boot =
    [(Panicked "Local Docker Compose not found. Is docker-compose on the PATH?", boot)] ∧
  Down bareHost (exits None None None) (demo bareHost) boot =
    [(Panicked "Local Docker Compose not found. Is docker-compose on the PATH?", boot)].
Proof.
  assert (Hwhich : which bareHost (Executable (demo bareHost)) =
            Some "exec: docker-compose: executable file not found in $PATH")
    by reflexivity.
  split; [exact Hwhich|]. split.
  - exact (preflight_halts bareHost (exits None None None) (demo bareHost) InvokeOp
             boot _ Hwhich).
  - exact (preflight_halts bareHost (exits None None None) (demo bareHost) DownOp
             boot _ Hwhich).
Defined.

Lemma wait_failure_halts_witness :
  wf boot ∧ which demoHost (Executable (demo demoHost)) = None ∧
  Invoke demoHost (exits (Some "exit status 1") None None) (demo demoHost) boot ≠ [] ∧
  always (Invoke demoHost (exits (Some "exit status 1") None None) (demo demoHost)) boot
    (λ r m',
       r = Panicked ("Local Docker compose exited abnormally whilst running " +:+
                     "docker-compose: [up -d]. exit status 1")).
Proof.
  assert (Hwf : wf boot) by apply Forall_nil_2.
  assert (Hwhich : which demoHost (Executable (demo demoHost)) = None) by reflexivity.
  split; [exact Hwf|]. split; [exact Hwhich|].
  destruct (wait_failure_halts demoHost (exits (Some "exit status 1") None None)
              (demo demoHost) InvokeOp boot Hwf Hwhich) as [Hne Hall].
  split; [exact Hne|].
  eapply always_mono; [exact Hall|].
  intros r m' [_ Hpanic].
  destruct (Hpanic "exit status 1" eq_refl eq_refl) as [-> _]. reflexivity.
Defined.

Lemma start_failure_result_witness :
  wf boot ∧
  cmd_Start (unstartable "fork/exec: permission denied")
    (command demoHost "." ∅ "docker-compose" ["down"]) =
    Some "fork/exec: permission denied" ∧
  always (execute demoHost (unstartable "fork/exec: permission denied")
            "." ∅ "docker-compose" ["down"]) boot
    (λ r m',
       r = Returned {| Error := Some "fork/exec: permission denied";
                       Stdout := None; Stderr := None |} ∧
       goroutines (trace m') = [] ∧ pending m' = []).
Proof.
  assert (Hwf : wf boot) by apply Forall_nil_2.
  split; [exact Hwf|]. split; [reflexivity|].
  destruct (start_failure_result demoHost (unstartable "fork/exec: permission denied")
              "." ∅ "docker-compose" ["down"] boot _ Hwf eq_refl) as [_ Hall].
  eapply always_mono; [exact Hall|].
  intros r m' (Hr & Hgo & _ & Hpend). split; [exact Hr|]. split; [exact Hgo|].
  destruct (pending m') as [|t ts]; [reflexivity|].
  exfalso. eapply elem_of_nil, (Hpend t). apply elem_of_cons. by left.
Defined.

Lemma readers_not_joined_witness :
  wf boot ∧
  cmd_Start (exits None (Some "read |0: file already closed") None)
    (command demoHost "." ∅ "docker-compose" ["down"]) = None ∧
  possibly (execute demoHost (exits None (Some "read |0: file already closed") None)
              "." ∅ "docker-compose" ["down"]) boot
    (λ r m', r = Returned {| Error := None; Stdout := None; Stderr := None |} ∧
             length (pending m') = 2) ∧
  possibly (execute demoHost (exits None (Some "read |0: file already closed") None)
              "." ∅ "docker-compose" ["down"]) boot
    (λ r m', r = Returned {| Error := None;
                             Stdout := Some "read |0: file already closed";
                             Stderr := None |} ∧
             pending m' = []).
Proof.
  assert (Hwf : wf boot) by apply Forall_nil_2.
  split; [exact Hwf|]. split; [reflexivity|].
  destruct (readers_not_joined demoHost
              (exits None (Some "read |0: file already closed") None)
              "." ∅ "docker-compose" ["down"] boot Hwf eq_refl)
    as (_ & Hearly & Hlate).
  split.
  - eapply Exists_impl; [exact Hearly|].
    intros [r m'] (Hr & _ & Hpend). simpl in *. split; [exact Hr|].
    rewrite Hpend. reflexivity.
  - exact Hlate.
Defined.

Lemma empty_title_rejected_witness :
  Modulegen.TitleName
    {| Modulegen.Image := "docker.io/redis:7"; Modulegen.IsModule := false;
       Modulegen.Name := "Redis"; Modulegen.TitleName := "";
       Modulegen.TCVersion := "v0.20.1" |} = "" ∧
  Modulegen.flag_Parse Modulegen.demoBox
    ["-name"; "Redis"; "--image=docker.io/redis:7"] =
    Modulegen.Parsed {[ "name" := "Redis"; "image" := "docker.io/redis:7" ]} ∧
  ({[ "name" := "Redis"; "image" := "docker.io/redis:7" ]} : gmap string string)
    !! "title" = None ∧
  (∃ err,
     Modulegen.generate Modulegen.demoBox
       {| Modulegen.Image := "docker.io/redis:7"; Modulegen.IsModule := false;
          Modulegen.Name := "Redis"; Modulegen.TitleName := "";
          Modulegen.TCVersion := "v0.20.1" |}
       (Modulegen.NewContext Modulegen.demoBox "/repo") [] = (Some err, [])) ∧
  (∃ code text,
     Modulegen.main Modulegen.demoBox
       ["-name"; "Redis"; "--image=docker.io/redis:7"] [] =
       (code, [Modulegen.Print text]) ∧ code ≠ 0%Z).
Proof.
  assert (Hparse : Modulegen.flag_Parse Modulegen.demoBox
                     ["-name"; "Redis"; "--image=docker.io/redis:7"] =
                   Modulegen.Parsed
                     {[ "name" := "Redis"; "image" := "docker.io/redis:7" ]})
    by (vm_compute; reflexivity).
  assert (Hset : ({[ "name" := "Redis"; "image" := "docker.io/redis:7" ]}
                    : gmap string string) !! "title" = None) by reflexivity.
  split; [reflexivity|]. split; [exact Hparse|]. split; [exact Hset|].
  destruct (empty_title_rejected Modulegen.demoBox
              {| Modulegen.Image := "docker.io/redis:7"; Modulegen.IsModule := false;
                 Modulegen.Name := "Redis"; Modulegen.TitleName := "";
                 Modulegen.TCVersion := "v0.20.1" |}
              (Modulegen.NewContext Modulegen.demoBox "/repo")
              ["-name"; "Redis"; "--image=docker.io/redis:7"]
              {[ "name" := "Redis"; "image" := "docker.io/redis:7" ]} []
              eq_refl Hparse Hset)
    as ((err & _ & Hgen) & (code & text & Hmain & Hcode) & _).
  split; [exists err; exact Hgen|].
  exists code, text. split; [|exact Hcode].
  destruct Hmain as [Hmain|Hmain]; [exact Hmain|].
  vm_compute in Hmain. discriminate Hmain.
Defined.

(** The tee over a recording destination: the buffer and the record after
    two writes. *)
Example tee_records :
  let t := (Tee.writeAll (Tee.newCapturingPassThroughWriter {| Tee.received := [] |})
              [["h"; "i"]; ["!"]]%byte).1 in
  Tee.Bytes t = ["h"; "i"; "!"]%byte ∧
  Tee.received (Tee.w t) = [["h"; "i"]; ["!"]]%byte.
Proof. split; reflexivity. Qed.

(** * Further properties of the code *)

(** ** The driver and its configuration *)
Section DriverFacts.
Context (host : Platform).
Implicit Types (dc : LocalDockerCompose).

(** X1: a sequence of configuration calls leaves the command of the last
    [WithCommand] and the overlay of the last [WithEnv] (the ones the driver
    had when there is none), and never touches the executable, the paths or
    the identifier. *)
Theorem configuration_replaces dc (cs : list config) :
  Cmd (configured dc cs) = default (Cmd dc) (lastCommand cs) ∧
  Env (configured dc cs) = default (Env dc) (lastEnv cs) ∧
  Executable (configured dc cs) = Executable dc ∧
  ComposeFilePaths (configured dc cs) = ComposeFilePaths dc ∧
  absComposeFilePaths (configured dc cs) = absComposeFilePaths dc ∧
  Identifier (configured dc cs) = Identifier dc.
Proof.
  induction cs as [|c cs IH] using rev_ind; [done|].
  unfold configured, lastCommand, lastEnv in *.
  rewrite foldl_snoc, !omap_app.
  destruct IH as (Hcmd & Henv & Hexe & Hcfp & Habs & Hid).
  destruct c as [cmd|env]; simpl.
  - rewrite last_snoc, app_nil_r. simpl. done.
  - rewrite last_snoc, app_nil_r. simpl. done.
Qed.

(** X2: the constructor keeps the given paths and caches beside them one
    path for each, at the same index: what [filepath.Abs] returns for it. *)
Theorem constructor_caches_paths (filePaths : list string) (identifier : string) :
  let dc := NewLocalDockerCompose host filePaths identifier in
  ComposeFilePaths dc = filePaths ∧
  length (absComposeFilePaths dc) = length filePaths ∧
  ∀ i, absComposeFilePaths dc !! i =
       (λ cfp, (filepath_Abs host cfp).1) <$> (filePaths !! i).
Proof.
  intros dc. split; [done|].
  assert (Habs : absComposeFilePaths dc = absolute host filePaths).
  { unfold dc. simpl. rewrite absLoop_closed; [done|]. by rewrite length_replicate. }
  rewrite Habs. unfold absolute. split; [apply length_fmap|].
  intros i. apply list_lookup_fmap.
Qed.

End DriverFacts.

(** ** The computed environment *)
Section EnvironmentFacts.
Context (host : Platform) (proc : Process).
Implicit Types (m : Machine) (dc : LocalDockerCompose).

Lemma string_length_app (s1 s2 : string) :
  String.length (s1 +:+ s2) = String.length s1 + String.length s2.
Proof.
  induction s1 as [|c s1 IH]; [done|].
  change (S (String.length (s1 +:+ s2)) = S (String.length s1 + String.length s2)).
  by rewrite IH.
Qed.

Lemma string_app_empty (s : string) : s +:+ "" = s.
Proof.
  induction s as [|c s IH]; [done|].
  change (String c (s +:+ "") = String c s). by rewrite IH.
Qed.

Lemma fileList_length sep paths :
  String.length (fileList sep paths) =
  sum_list ((λ p, String.length p + String.length sep) <$> paths).
Proof.
  induction paths as [|p rest IH]; [done|]. cbn [fileList fmap list_fmap sum_list].
  rewrite !string_length_app, IH. simpl. lia.
Qed.

Lemma fileList_ends sep paths :
  paths ≠ [] → ∃ front, fileList sep paths = front +:+ sep.
Proof.
  induction paths as [|p rest IH]; [done|]. intros _. cbn [fileList].
  destruct rest as [|q rest].
  - exists p. cbn [fileList]. by rewrite string_app_empty.
  - destruct IH as [front Hfront]; [done|]. rewrite Hfront.
    exists (p +:+ sep +:+ front). by rewrite !string_app_assoc.
Qed.

(** X3: the environment that [getDockerComposeEnvironment] computes has the
    two variables and nothing else, and the overlay that a terminal
    operation hands to [execute] has those two and the variables of the
    user overlay, so no variable of the user is lost. *)
Theorem overlay_domain dc op m :
  wf m → which host (Executable dc) = None →
  dom (getDockerComposeEnvironment host dc) =
    ({[ "COMPOSE_PROJECT_NAME"; "COMPOSE_FILE" ]} : gset string) ∧
  always (perform host proc op dc) m (λ r m',
    ∃ c, calls (trace m') = calls (trace m) ++ [c] ∧
         dom (call_environment c) =
           dom (Env dc) ∪ {[ "COMPOSE_PROJECT_NAME"; "COMPOSE_FILE" ]}).
Proof.
  intros Hwf Hwhich.
  assert (Hdom : dom (getDockerComposeEnvironment host dc) =
                 ({[ "COMPOSE_PROJECT_NAME"; "COMPOSE_FILE" ]} : gset string)).
  { rewrite environment_closed, !dom_insert_L, dom_empty_L.
    unfold envComposeFile, envProjectName. set_solver. }
  split; [exact Hdom|]. rewrite perform_tokens.
  eapply always_mono; [apply executeCompose_always; [exact Hwf|exact Hwhich]|].
  intros r m' (Hcalls & _). eexists. split; [exact Hcalls|]. simpl.
  by rewrite dom_union_L, Hdom.
Qed.

(** X4: the value computed for the file-list variable is as long as the
    cached paths and one separator for each; when there is a path it ends
    with the separator, and it is empty only when there is none. *)
Theorem file_list_value dc :
  ∃ value,
    getDockerComposeEnvironment host dc !! "COMPOSE_FILE" = Some value ∧
    String.length value =
      sum_list ((λ p, String.length p + 1) <$> absComposeFilePaths dc) ∧
    (absComposeFilePaths dc ≠ [] →
       ∃ front, value = front +:+ String (PathListSeparator host) "") ∧
    (value = "" ↔ absComposeFilePaths dc = []).
Proof.
  eexists. split; [rewrite environment_closed; apply lookup_insert_eq|].
  split; [apply fileList_length|]. split; [apply fileList_ends|].
  split.
  - intros Hempty. destruct (absComposeFilePaths dc) as [|p rest]; [done|].
    apply (f_equal String.length) in Hempty.
    rewrite fileList_length in Hempty. simpl in Hempty. lia.
  - by intros ->.
Qed.

End EnvironmentFacts.

(** ** The operations and the process *)
Section OperationFacts.
Context (host : Platform) (proc : Process).
Implicit Types (m : Machine) (dc : LocalDockerCompose).

(** [executeCompose] after the preflight check, with all that [execute]
    guarantees. *)
Lemma executeCompose_detail dc args m :
  wf m → which host (Executable dc) = None →
  always (executeCompose host proc dc args) m (λ r m',
    let cmd := command host (workingDirectory host (absComposeFilePaths dc))
                 (Env dc ∪ getDockerComposeEnvironment host dc) (Executable dc)
                 (arguments (absComposeFilePaths dc) args) in
    wf m' ∧
    match cmd_Start proc cmd with
    | Some why =>
        r = Panicked (exitedAbnormally dc why) ∧
        goroutines (trace m') = goroutines (trace m) ∧
        ∀ t, t ∈ pending m' → t ∈ pending m
    | None =>
        goroutines (trace m') = goroutines (trace m) ++ [StdoutStream; StderrStream] ∧
        match cmd_Wait proc cmd with
        | Some why => r = Panicked (exitedAbnormally dc why)
        | None =>
            ∃ so se, r = Returned {| Error := None; Stdout := so; Stderr := se |} ∧
                     (so = None ∨ so = io_Copy proc cmd StdoutStream) ∧
                     (se = None ∨ se = io_Copy proc cmd StderrStream)
        end
    end).
Proof.
  intros Hwf Hwhich.
  eapply always_eq; [apply executeCompose_found, Hwhich|].
  apply always_bind.
  eapply always_mono; [apply execute_always, Hwf|].
  intros r m' (_ & _ & Hwf' & Hres). simpl in Hres.
  destruct (cmd_Start proc _) as [why|] eqn:Hstart.
  - destruct Hres as (-> & _ & Hgo & Hpend). simpl.
    apply always_panic. rewrite Hstart. done.
  - destruct Hres as ((so & se & -> & Hso & Hse) & _ & Hgo). simpl.
    destruct (cmd_Wait proc _) as [why|] eqn:Hwait.
    + apply always_panic. rewrite Hstart. done.
    + apply always_ret. rewrite Hstart. eauto 10.
Qed.

(** X5: when the process cannot be started, a terminal operation panics in
    every schedule with the text of the start error, as it does for a wait
    error: it never returns the result, and no reader was started. *)
Theorem start_failure_halts dc op m why :
  wf m → which host (Executable dc) = None →
  cmd_Start proc (command host (workingDirectory host (absComposeFilePaths dc))
                    (Env dc ∪ getDockerComposeEnvironment host dc) (Executable dc)
                    (arguments (absComposeFilePaths dc) (tokens op dc))) = Some why →
  perform host proc op dc m ≠ [] ∧
  always (perform host proc op dc) m (λ r m',
    r = Panicked ("Local Docker compose exited abnormally whilst running " +:+
                  Executable dc +:+ ": [" +:+ strings_Join (Cmd dc) " " +:+
                  "]. " +:+ why) ∧
    goroutines (trace m') = goroutines (trace m) ∧
    started (trace m') = started (trace m)).
Proof.
  intros Hwf Hwhich Hstart. rewrite perform_tokens. split.
  { apply executeCompose_nonempty. }
  eapply always_mono;
    [apply (always_and _ _ _ _
              (executeCompose_detail dc (tokens op dc) m Hwf Hwhich)
              (executeCompose_always host proc dc (tokens op dc) m Hwf Hwhich))|].
  intros r m' [(_ & Hdetail) (_ & _ & Hres)]. simpl in Hdetail, Hres.
  rewrite Hstart in Hdetail, Hres.
  destruct Hdetail as (-> & Hgo & _). destruct Hres as [_ Hst]. done.
Qed.

(** X6: an error of a stream copy alone does not halt the operation: when
    the process starts and its wait reports no error, every outcome is a
    returned result with a nil top-level error whose copy-error fields hold
    nil or the error of the reader, and in some schedule the result carries
    both errors of the readers to the caller. *)
Theorem copy_failure_is_returned dc op m :
  let cmd := command host (workingDirectory host (absComposeFilePaths dc))
               (Env dc ∪ getDockerComposeEnvironment host dc) (Executable dc)
               (arguments (absComposeFilePaths dc) (tokens op dc)) in
  wf m → which host (Executable dc) = None →
  cmd_Start proc cmd = None → cmd_Wait proc cmd = None →
  always (perform host proc op dc) m (λ r m',
    ∃ so se, r = Returned {| Error := None; Stdout := so; Stderr := se |} ∧
             (so = None ∨ so = io_Copy proc cmd StdoutStream) ∧
             (se = None ∨ se = io_Copy proc cmd StderrStream)) ∧
  possibly (perform host proc op dc) m (λ r m',
    r = Returned {| Error := None;
                    Stdout := io_Copy proc cmd StdoutStream;
                    Stderr := io_Copy proc cmd StderrStream |}).
Proof.
  intros cmd Hwf Hwhich Hstart Hwait. rewrite perform_tokens. split.
  - eapply always_mono; [apply executeCompose_detail; [exact Hwf|exact Hwhich]|].
    intros r m' (_ & Hres). simpl in Hres. fold cmd in Hres.
    rewrite Hstart, Hwait in Hres. destruct Hres as [_ Hres]. exact Hres.
  - destruct (execute_late host proc _ _ _ _ m Hstart) as (m' & Hin & _).
    fold cmd in Hin. rewrite Hwait in Hin.
    apply Exists_exists.
    exists (Returned {| Error := None; Stdout := io_Copy proc cmd StdoutStream;
                        Stderr := io_Copy proc cmd StderrStream |}, m').
    split; [|reflexivity].
    rewrite (executeCompose_found host proc dc (tokens op dc) m Hwhich).
    eapply bind_in; [exact Hin|]. simpl. apply ret_in.
Qed.

End OperationFacts.

Section ProcessFacts.
Context (host : Platform) (proc : Process).
Implicit Types (m : Machine) (dc : LocalDockerCompose).

Lemma command_environment dirContext environment binary args :
  ∃ tail, CmdEnv (command host dirContext environment binary args) =
            os_Environ host ++ tail ∧
          tail ≡ₚ entries environment.
Proof.
  exists ((λ kv, kv.1 +:+ "=" +:+ kv.2) <$> mapRange host environment). split.
  - unfold command. simpl.
    generalize (os_Environ host).
    induction (mapRange host environment) as [|kv l IH]; intros env.
    + by rewrite app_nil_r.
    + simpl. rewrite IH, <- app_assoc. done.
  - unfold entries. apply fmap_Permutation, mapRange_entries.
Qed.

Lemma command_path dirContext environment binary args :
  filepath_Base host binary = binary →
  (exec_LookPath host binary).1 ≠ "" →
  Path (command host dirContext environment binary args) =
  (exec_LookPath host binary).1.
Proof.
  intros Hbase Hlp. unfold command. simpl.
  rewrite Hbase, String.eqb_refl.
  destruct (String.eqb_spec (exec_LookPath host binary).1 "") as [Heq|_]; [|done].
  by destruct Hlp.
Qed.

Lemma entries_lookup (environment : gmap string string) k v :
  environment !! k = Some v → k +:+ "=" +:+ v ∈ entries environment.
Proof.
  intros Hk. unfold entries. apply list_elem_of_fmap.
  exists (k, v). split; [done|]. by apply elem_of_map_to_list.
Qed.

(** X7: the command that a terminal operation hands to [cmd.Start].  Its
    arguments are the configured executable, as named, in front of the
    assembled arguments; for an executable named without a directory its
    path is the one that the search of the execution path found; and its
    field [Env] is the environment of the calling process followed by one
    [name=value] entry for each variable of the overlay, in some order, so
    an overlay entry comes after an entry of the same name of the caller. *)
Theorem started_process dc op m :
  let overlay := Env dc ∪ getDockerComposeEnvironment host dc in
  let exe := Executable dc in
  wf m → which host exe = None →
  always (perform host proc op dc) m (λ r m',
    ∀ p, p ∈ started (trace m') →
      p ∈ started (trace m) ∨
      ((filepath_Base host exe = exe → (exec_LookPath host exe).1 ≠ "" →
        Path p = (exec_LookPath host exe).1) ∧
       Args p = exe :: arguments (absComposeFilePaths dc) (tokens op dc) ∧
       (∃ tail, CmdEnv p = os_Environ host ++ tail ∧
                tail ≡ₚ entries overlay ∧
                length tail = size overlay ∧
                ∀ k v, overlay !! k = Some v → k +:+ "=" +:+ v ∈ tail))).
Proof.
  intros overlay exe Hwf Hwhich. rewrite perform_tokens.
  eapply always_mono; [apply executeCompose_always; [exact Hwf|exact Hwhich]|].
  intros r m' (_ & _ & Hres) p Hp. simpl in Hres. fold overlay exe in Hres.
  destruct (cmd_Start proc _).
  - destruct Hres as [_ Hst]. rewrite Hst in Hp. by left.
  - destruct Hres as [Hst _]. rewrite Hst in Hp.
    apply elem_of_app in Hp as [Hp|Hp]; [by left|].
    apply list_elem_of_singleton in Hp as ->. right.
    split; [apply command_path|]. split; [done|].
    destruct (command_environment
                (workingDirectory host (absComposeFilePaths dc)) overlay exe
                (arguments (absComposeFilePaths dc) (tokens op dc)))
      as (tail & Henv & Hperm).
    exists tail. split; [exact Henv|]. split; [exact Hperm|]. split.
    + rewrite Hperm. unfold entries. by rewrite length_fmap, length_map_to_list.
    + intros k v Hk. rewrite Hperm. by apply entries_lookup.
Qed.

(** X8: a terminal operation that passes the preflight check calls the
    Process Runner once, creates the tee of the standard output and then
    the tee of the standard error, also when the process then fails to
    start, and starts at most one process. *)
Theorem operation_resources dc op m :
  wf m → which host (Executable dc) = None →
  always (perform host proc op dc) m (λ r m',
    length (calls (trace m')) = S (length (calls (trace m))) ∧
    tees (trace m') = tees (trace m) ++ [StdoutStream; StderrStream] ∧
    (started (trace m') = started (trace m) ∨
     ∃ p, started (trace m') = started (trace m) ++ [p])).
Proof.
  intros Hwf Hwhich. rewrite perform_tokens.
  eapply always_mono; [apply executeCompose_always; [exact Hwf|exact Hwhich]|].
  intros r m' (Hcalls & Htees & Hres). simpl in Hres.
  split; [rewrite Hcalls, length_app; simpl; lia|]. split; [exact Htees|].
  destruct (cmd_Start proc _).
  - left. apply Hres.
  - right. eexists. apply Hres.
Qed.

(** X9: Invoke and then Down on the same driver: when Down returns, the
    two operations made one call each, in the same directory and with the
    same overlay and [-f] pairs, the first with the configured command and
    the second with [down]; when the process of Invoke fails to start or
    its wait reports an error, the panic of Invoke ends the sequence after
    one call and Down is not run. *)
Theorem invoke_then_down dc m :
  let first := command host (workingDirectory host (absComposeFilePaths dc))
                 (Env dc ∪ getDockerComposeEnvironment host dc) (Executable dc)
                 (arguments (absComposeFilePaths dc) (Cmd dc)) in
  wf m → which host (Executable dc) = None →
  always (Invoke host proc dc ≫= λ _, Down host proc dc) m (λ r m',
    (∀ execErr, r = Returned execErr →
       ∃ c1 c2, calls (trace m') = calls (trace m) ++ [c1; c2] ∧
                call_dir c1 = call_dir c2 ∧
                call_environment c1 = call_environment c2 ∧
                call_args c1 = arguments (absComposeFilePaths dc) (Cmd dc) ∧
                call_args c2 = arguments (absComposeFilePaths dc) ["down"] ∧
                length (started (trace m')) = 2 + length (started (trace m))) ∧
    (cmd_Start proc first ≠ None ∨ cmd_Wait proc first ≠ None →
       (∃ msg, r = Panicked msg) ∧
       length (calls (trace m')) = 1 + length (calls (trace m)))).
Proof.
  intros first Hwf Hwhich. apply always_bind.
  eapply always_mono;
    [apply (always_and _ _ _ _
              (executeCompose_always host proc dc (Cmd dc) m Hwf Hwhich)
              (executeCompose_wf host proc dc (Cmd dc) m Hwf))|].
  intros [x|msg] m1 [(Hcalls1 & _ & Hres1) Hwf1]; simpl in Hres1; fold first in Hres1.
  - eapply always_mono;
      [apply (executeCompose_always host proc dc ["down"] m1 Hwf1 Hwhich)|].
    intros r m2 (Hcalls2 & _ & Hres2). simpl in Hres2.
    destruct (cmd_Start proc first); [by destruct Hres1|].
    destruct Hres1 as [Hst1 Hres1].
    destruct (cmd_Wait proc first); [done|].
    split; [|by intros [?|?]].
    intros execErr ->. eexists _, _.
    split; [rewrite Hcalls2, Hcalls1, <- app_assoc; reflexivity|].
    repeat (split; [reflexivity|]).
    destruct (cmd_Start proc _) in Hres2; [by destruct Hres2|].
    destruct Hres2 as [Hst2 _].
    rewrite Hst2, Hst1, !length_app. simpl. lia.
  - split; [by intros execErr [=]|]. intros _. split; [eauto|].
    rewrite Hcalls1, length_app. simpl. lia.
Qed.

End ProcessFacts.

Section ReaderFacts.
Context (host : Platform) (proc : Process).
Implicit Types (m : Machine).

Lemma runs_confined (P : Task → Prop) n m m' :
  runs proc m m' →
  Forall P (pending m) ∧ length (pending m) ≤ n →
  Forall P (pending m') ∧ length (pending m') ≤ n.
Proof.
  induction 1 as [|m i t m' Hi _ IH]; [done|].
  intros [HP Hlen]. apply IH. simpl. split; [by apply Forall_delete|].
  rewrite length_delete by eauto. lia.
Qed.

(** X10: the goroutines that a call of [execute] leaves behind are its two
    readers at most: every goroutine pending when it returns was pending
    before the call or reads a stream of the command of this call into a
    variable of this call, and there are at most two more than before. *)
Theorem readers_left_behind dirContext environment binary args m :
  always (execute host proc dirContext environment binary args) m (λ r m',
    length (pending m') ≤ length (pending m) + 2 ∧
    ∀ t, t ∈ pending m' →
      t ∈ pending m ∨
      (task_cmd t = command host dirContext environment binary args ∧
       length (heap m) ≤ task_var t)).
Proof.
  unfold execute.
  set (cmd := command host dirContext environment binary args).
  set (P := λ t, t ∈ pending m ∨ (task_cmd t = cmd ∧ length (heap m) ≤ task_var t)).
  assert (Hmine : ∀ s k, P {| task_cmd := cmd; task_stream := s;
                              task_var := length (heap m) + k |}).
  { intros s k. right. simpl. split; [done|lia]. }
  assert (Hend : ∀ n m', Forall P (pending m') ∧ length (pending m') ≤ n →
                 n ≤ length (pending m) + 2 →
                 length (pending m') ≤ length (pending m) + 2 ∧
                 ∀ t, t ∈ pending m' → P t).
  { intros n m' [HP Hlen] Hn. split; [lia|]. by apply Forall_forall. }
  assert (H0 : Forall P (pending m) ∧ length (pending m) ≤ length (pending m)).
  { split; [|done]. apply Forall_forall. intros t Ht. by left. }
  apply always_bind, always_emit.
  apply always_bind, always_declare.
  apply always_bind, always_declare. simpl.
  apply always_bind, always_newWriter. intros m3 H3.
  pose proof (runs_confined P _ _ _ H3 H0) as I3.
  apply always_bind, always_newWriter. intros m4 H4.
  pose proof (runs_confined P _ _ _ H4 I3) as I4.
  apply always_bind, always_Start. intros m5 H5.
  pose proof (runs_confined P _ _ _ H5 I4) as I5.
  destruct (cmd_Start proc cmd).
  - apply always_bind, always_read. intros m6 H6.
    pose proof (runs_confined P _ _ _ H6 I5) as I6.
    apply always_bind, always_read. intros m7 H7.
    pose proof (runs_confined P _ _ _ H7 I6) as I7.
    apply always_ret. simpl. apply (Hend _ _ I7). lia.
  - apply always_bind, always_spawn. intros m6 H6.
    pose proof (runs_confined P _ _ _ H6 I5) as [P6 L6]. simpl.
    apply always_bind, always_spawn. intros m7 H7.
    assert (J6 : Forall P (pending m6 ++
                   [{| task_cmd := cmd; task_stream := StdoutStream;
                       task_var := length (heap m) |}]) ∧
                 length (pending m6 ++
                   [{| task_cmd := cmd; task_stream := StdoutStream;
                       task_var := length (heap m) |}]) ≤ length (pending m) + 1).
    { split.
      - apply Forall_app. split; [exact P6|]. apply Forall_singleton.
        specialize (Hmine StdoutStream 0). by rewrite Nat.add_0_r in Hmine.
      - rewrite length_app. simpl. lia. }
    pose proof (runs_confined P _ _ _ H7 J6) as [P7 L7]. simpl.
    apply always_bind, always_Wait. intros m8 H8.
    assert (J7 : Forall P (pending m7 ++
                   [{| task_cmd := cmd; task_stream := StderrStream;
                       task_var := length (heap m ++ [None]) |}]) ∧
                 length (pending m7 ++
                   [{| task_cmd := cmd; task_stream := StderrStream;
                       task_var := length (heap m ++ [None]) |}]) ≤ length (pending m) + 2).
    { split.
      - apply Forall_app. split; [exact P7|]. apply Forall_singleton.
        rewrite length_app. apply Hmine.
      - rewrite length_app. simpl. lia. }
    pose proof (runs_confined P _ _ _ H8 J7) as I8.
    apply always_bind, always_read. intros m9 H9.
    pose proof (runs_confined P _ _ _ H9 I8) as I9.
    apply always_bind, always_read. intros m10 H10.
    pose proof (runs_confined P _ _ _ H10 I9) as I10.
    apply always_ret. simpl. apply (Hend _ _ I10). lia.
Qed.

End ReaderFacts.

Section IdentifierFacts.
Context (host : Platform).

Lemma lowerASCII_lowered (c : ascii) :
  byte_lt c 128 = true →
  byte_lt (lowerASCII c) 128 && negb (byte_between 65 90 (lowerASCII c)) = true ∧
  lowerASCII (lowerASCII c) = lowerASCII c.
Proof.
  destruct c as [[] [] [] [] [] [] [] []]; intros Hc;
    first [discriminate Hc | split; vm_compute; reflexivity].
Qed.

Lemma string_map_lowered (s : string) :
  string_forallb (λ c, byte_lt c 128) s = true →
  String.length (string_map lowerASCII s) = String.length s ∧
  string_forallb (λ c, byte_lt c 128 && negb (byte_between 65 90 c))
    (string_map lowerASCII s) = true ∧
  string_forallb (λ c, byte_lt c 128) (string_map lowerASCII s) = true ∧
  string_map lowerASCII (string_map lowerASCII s) = string_map lowerASCII s.
Proof.
  induction s as [|c s IH]; [done|]. cbn [string_forallb string_map String.length].
  intros [Hc Hs]%andb_prop. destruct (IH Hs) as (Hlen & Hlow & Hasc & Hidem).
  destruct (lowerASCII_lowered c Hc) as [Hc' Hcc].
  rewrite Hlen, Hlow, Hasc, Hidem, Hcc, Hc'.
  apply andb_prop in Hc' as [-> _]. done.
Qed.

(** X11: for an identifier of ASCII bytes, the identifier that the
    constructor stores, which becomes the project name, has the same
    length, has no upper-case letter, and is what the constructor stores
    again when it is given back as the identifier. *)
Theorem identifier_lowered (filePaths : list string) (identifier : string) :
  string_forallb (λ c, byte_lt c 128) identifier = true →
  let id := Identifier (NewLocalDockerCompose host filePaths identifier) in
  String.length id = String.length identifier ∧
  string_forallb (λ c, byte_lt c 128 && negb (byte_between 65 90 c)) id = true ∧
  Identifier (NewLocalDockerCompose host filePaths id) = id.
Proof.
  intros Hascii. simpl. unfold strings_ToLower. rewrite Hascii.
  destruct (string_map_lowered identifier Hascii) as (Hlen & Hlow & Hasc & Hidem).
  rewrite Hasc. done.
Qed.

End IdentifierFacts.

(** ** Tees in a chain *)
Section TeeFacts.
Import Tee.
Context {W : Type} `{Writer W}.

(** X12: a tee is a writer, so it can be the destination of another tee:
    after any sequence of writes to the outer of two new tees, both hold
    the same bytes, the written byte sequences in order, and the
    destination of the inner one is in the state, and the calls returned
    the results, of the same writes made to it directly. *)
Theorem tee_over_tee (dst : W) (ds : list (list byte)) :
  let outer := writeAll (newCapturingPassThroughWriter
                           (newCapturingPassThroughWriter dst)) ds in
  Bytes outer.1 = concat ds ∧
  Bytes (w outer.1) = concat ds ∧
  (w (w outer.1), outer.2) = writeAll dst ds.
Proof.
  assert (Hall : ∀ t : capturingPassThroughWriter (capturingPassThroughWriter W),
     Bytes (writeAll t ds).1 = Bytes t ++ concat ds ∧
     Bytes (w (writeAll t ds).1) = Bytes (w t) ++ concat ds ∧
     (w (w (writeAll t ds).1), (writeAll t ds).2) = writeAll (w (w t)) ds).
  { induction ds as [|d rest IH]; intros t; simpl.
    - by rewrite !app_nil_r.
    - destruct (Write_step t d) as [Hbuf Hdst].
      destruct (Write_step (w t) d) as [Hbuf' Hdst'].
      unfold io_Write at 1 2 3 4 5, tee_Writer.
      unfold io_Write at 1, tee_Writer in Hdst.
      destruct (Write t d) as [t1 res]. simpl in Hbuf, Hdst.
      destruct (Write (w t) d) as [u1 res']. simpl in Hbuf', Hdst'.
      injection Hdst as Hw1 Hres. subst res'.
      destruct (IH t1) as (Hb1 & Hb2 & Hrest).
      destruct (writeAll t1 rest) as [t2 ress]. simpl in *.
      unfold io_Write in Hdst'.
      rewrite <- Hdst'. rewrite Hw1 in Hrest. rewrite <- Hrest.
      rewrite Hb1, Hb2, Hbuf, Hw1, Hbuf', <- !app_assoc. done. }
  intros outer. apply (Hall (newCapturingPassThroughWriter
                               (newCapturingPassThroughWriter dst))).
Qed.

End TeeFacts.

(** ** The names of an example *)
Section NameFacts.
Import Modulegen.

Lemma matches_Void_Cat r s : matches (Cat Void r) s = false.
Proof. induction s as [|c s IH]; [done|]. exact IH. Qed.

Lemma matches_Alt r1 r2 s : matches (Alt r1 r2) s = matches r1 s || matches r2 s.
Proof.
  revert r1 r2. induction s as [|c s IH]; intros r1 r2; [done|]. simpl. apply IH.
Qed.

Lemma matches_alphanumericals s :
  matches (Cat Epsilon (Star (Class [upper; lower; digit]))) s =
  string_forallb isAlphanumerical s.
Proof.
  induction s as [|c s IH]; [done|].
  cbn [matches deriv nullable string_forallb]. rewrite matches_Alt, matches_Void_Cat.
  rewrite orb_false_l. unfold isAlphanumerical at 1.
  destruct (in_class [upper; lower; digit] c); [exact IH|apply matches_Void_Cat].
Qed.

Lemma MatchString_alphanumerical (s : string) :
  MatchString alphanumerical s = letterThenAlphanumericals s.
Proof.
  destruct s as [|c s]; [done|].
  unfold MatchString, alphanumerical. cbn [matches deriv nullable].
  unfold letterThenAlphanumericals, isLetter.
  destruct (in_class [upper; lower] c); [apply matches_alphanumericals|apply matches_Void_Cat].
Qed.

Lemma Validate_None (e : Example) :
  Validate e = None ↔
  letterThenAlphanumericals (Name e) = true ∧
  letterThenAlphanumericals (TitleName e) = true.
Proof.
  unfold Validate. rewrite !MatchString_alphanumerical.
  destruct (letterThenAlphanumericals (Name e)),
           (letterThenAlphanumericals (TitleName e)); simpl;
    (split; [intros Hv; try discriminate Hv; done|by intros [? ?]]).
Qed.

(** X13: the pattern [^[A-Za-z][A-Za-z0-9]*$] accepts the strings made of
    a letter followed by letters and digits, and no other. *)
Theorem pattern_accepts (s : string) :
  MatchString alphanumerical s = true ↔
  ∃ c rest, s = String c rest ∧ isLetter c = true ∧
            string_forallb isAlphanumerical rest = true.
Proof.
  rewrite MatchString_alphanumerical. split.
  - destruct s as [|c rest]; [done|]. intros [Hc Hrest]%andb_prop. eauto.
  - intros (c & rest & -> & Hc & Hrest). simpl. by rewrite Hc, Hrest.
Qed.

(** X14: [Validate] accepts an example exactly when its name and its title
    are each a letter followed by letters and digits; the name is checked
    first, so a bad name is the error reported whatever the title is, and
    a bad title is reported only under a good name. *)
Theorem Validate_accepts (e : Example) :
  (Validate e = None ↔
     letterThenAlphanumericals (Name e) = true ∧
     letterThenAlphanumericals (TitleName e) = true) ∧
  (letterThenAlphanumericals (Name e) = false →
     Validate e =
       Some ("invalid name: " +:+ Name e +:+
             ". Only alphanumerical characters are allowed (leading character must be a letter)")) ∧
  (letterThenAlphanumericals (Name e) = true →
   letterThenAlphanumericals (TitleName e) = false →
     Validate e =
       Some ("invalid title: " +:+ TitleName e +:+
             ". Only alphanumerical characters are allowed (leading character must be a letter)")).
Proof.
  split; [apply Validate_None|].
  unfold Validate. rewrite !MatchString_alphanumerical.
  split.
  - by intros ->.
  - by intros -> ->.
Qed.

End NameFacts.

Section ValidatedNames.
Import Modulegen.
Context (box : Toolbox) (lowerFirstRune : string → string) (cases_Title : string → string).

Lemma alphanumerical_byte (c : ascii) :
  isAlphanumerical c = true →
  byte_lt c 128 = true ∧
  isAlphanumerical (lowerASCII c) = true ∧
  negb (byte_between 65 90 (lowerASCII c)) = true ∧
  isLetter (lowerASCII c) = isLetter c.
Proof.
  destruct c as [[] [] [] [] [] [] [] []]; intros Hc;
    first [discriminate Hc | repeat split; vm_compute; reflexivity].
Qed.

Lemma letter_alphanumerical (c : ascii) : isLetter c = true → isAlphanumerical c = true.
Proof.
  unfold isLetter, isAlphanumerical, in_class. simpl.
  destruct (byte_between 65 90 c), (byte_between 97 122 c); simpl; done.
Qed.

Lemma alphanumericals_lowered (s : string) :
  string_forallb isAlphanumerical s = true →
  string_forallb (λ c, byte_lt c 128) s = true ∧
  string_forallb isAlphanumerical (string_map lowerASCII s) = true ∧
  string_forallb (λ c, negb (byte_between 65 90 c)) (string_map lowerASCII s) = true ∧
  String.length (string_map lowerASCII s) = String.length s.
Proof.
  induction s as [|c s IH]; [done|]. cbn [string_forallb string_map String.length].
  intros [Hc Hs]%andb_prop. destruct (IH Hs) as (Hasc & Haln & Hlow & Hlen).
  destruct (alphanumerical_byte c Hc) as (Hc1 & Hc2 & Hc3 & _).
  rewrite Hc1, Hc2, Hc3, Hasc, Haln, Hlow, Hlen. done.
Qed.

(** X15: for an example that [Validate] accepts, [Lower] is the name with
    its upper-case letters lowered byte by byte (the Unicode table is not
    consulted): it has the length of the name, starts with a letter and
    holds lower-case letters and digits only, so the directory of the
    example is a single path element. *)
Theorem Lower_of_valid (e : Example) :
  Validate e = None →
  Lower box e = string_map lowerASCII (Name e) ∧
  String.length (Lower box e) = String.length (Name e) ∧
  letterThenAlphanumericals (Lower box e) = true ∧
  string_forallb (λ c, negb (byte_between 65 90 c)) (Lower box e) = true.
Proof.
  intros Hvalid. apply Validate_None in Hvalid as [Hname _].
  destruct (Name e) as [|c s] eqn:Hn; [done|].
  apply andb_prop in Hname as [Hc Hs].
  pose proof (letter_alphanumerical c Hc) as Hc'.
  destruct (alphanumericals_lowered (String c s)) as (Hasc & Haln & Hlow & Hlen).
  { cbn [string_forallb]. by rewrite Hc', Hs. }
  unfold Lower, strings_ToLower. rewrite Hn, Hasc.
  split; [done|]. split; [exact Hlen|]. split; [|exact Hlow].
  cbn [string_map letterThenAlphanumericals].
  cbn [string_map string_forallb] in Haln. apply andb_prop in Haln as [_ Haln].
  destruct (alphanumerical_byte c Hc') as (_ & _ & _ & Hletter).
  by rewrite Hletter, Hc, Haln.
Qed.

(** X16: for an example that [Validate] accepts, the title is never
    derived from the name: [Title] is the given title, and the container
    name is the title for a module, and the title with its first letter in
    lower case otherwise, followed by [Container], whatever the Unicode and
    title-casing tables are. *)
Theorem names_of_valid (e : Example) :
  Validate e = None →
  ∃ c rest,
    TitleName e = String c rest ∧ isLetter c = true ∧
    Title box cases_Title e = TitleName e ∧
    ContainerName box lowerFirstRune cases_Title e =
      (if IsModule e then String c rest else String (lowerASCII c) rest)
      +:+ "Container".
Proof.
  intros Hvalid. apply Validate_None in Hvalid as [_ Htitle].
  destruct (TitleName e) as [|c rest] eqn:Ht; [done|].
  apply andb_prop in Htitle as [Hc _].
  exists c, rest. split; [done|]. split; [exact Hc|].
  unfold ContainerName, Title. rewrite Ht. simpl.
  destruct (alphanumerical_byte c (letter_alphanumerical c Hc)) as (-> & _).
  by destruct (IsModule e).
Qed.

Lemma letter_lowered (c : ascii) :
  isLetter c = true → byte_between 97 122 (lowerASCII c) = true.
Proof.
  destruct c as [[] [] [] [] [] [] [] []]; intros Hc;
    first [discriminate Hc | vm_compute; reflexivity].
Qed.

(** X22: for a valid example that is not a module, the names given to the
    templates are not exported by the Go package: the container name
    starts with a lower-case letter and the entry point is
    [runContainer]; the example is of type [example] and is generated
    under [examples]. *)
Theorem example_names_unexported (e : Example) :
  Validate e = None → IsModule e = false →
  (∃ c rest,
     ContainerName box lowerFirstRune cases_Title e = String c rest ∧
     byte_between 97 122 c = true) ∧
  Entrypoint e = "runContainer" ∧ ExampleType e = "example" ∧
  ParentDir e = "examples".
Proof.
  intros Hvalid Hmodule. apply Validate_None in Hvalid as [_ Htitle].
  unfold ContainerName, Entrypoint, ExampleType, ParentDir. rewrite Hmodule.
  split; [|done].
  destruct (TitleName e) as [|c rest] eqn:Ht; [done|].
  apply andb_prop in Htitle as [Hc _]. simpl.
  destruct (alphanumerical_byte c (letter_alphanumerical c Hc)) as (-> & _).
  exists (lowerASCII c), (rest +:+ "Container").
  split; [done|]. by apply letter_lowered.
Qed.

End ValidatedNames.

(** ** What [generate] and [main] do *)
Section GeneratorFacts.
Import Modulegen.
Context (box : Toolbox).

Lemma closes_log (deferred : list (option string)) (log : list Event) :
  (mapM (λ file, does (Close file) ()) deferred log).2 = log ++ (Close <$> deferred).
Proof.
  revert log. induction deferred as [|p deferred IH]; intros log; simpl.
  - by rewrite app_nil_r.
  - unfold mbind, G_bind, does at 1. simpl.
    specialize (IH (log ++ [Close p])).
    destruct (mapM (M := G) (λ file, does (Close file) ()) deferred (log ++ [Close p]))
      as [ys log']. simpl in *.
    rewrite IH, <- app_assoc. done.
Qed.

Lemma created_closes (deferred : list (option string)) : created (Close <$> deferred) = [].
Proof. induction deferred as [|p deferred IH]; [done|]. exact IH. Qed.

Lemma requested_closes (deferred : list (option string)) :
  requested (Close <$> deferred) = [].
Proof. induction deferred as [|p deferred IH]; [done|]. exact IH. Qed.

Lemma executed_closes (deferred : list (option string)) :
  executed (Close <$> deferred) = [].
Proof. induction deferred as [|p deferred IH]; [done|]. exact IH. Qed.

Lemma updates_closes (deferred : list (option string)) : updates (Close <$> deferred) = [].
Proof. induction deferred as [|p deferred IH]; [done|]. exact IH. Qed.

Lemma checks_closes (deferred : list (option string)) : checks (Close <$> deferred) = [].
Proof. induction deferred as [|p deferred IH]; [done|]. exact IH. Qed.

Lemma created_app l k : created (l ++ k) = created l ++ created k.
Proof. apply omap_app. Qed.
Lemma closed_app l k : closed (l ++ k) = closed l ++ closed k.
Proof. apply omap_app. Qed.
Lemma requested_app l k : requested (l ++ k) = requested l ++ requested k.
Proof. apply omap_app. Qed.
Lemma files_app l k : files (l ++ k) = files l ++ files k.
Proof. apply omap_app. Qed.
Lemma executed_app l k : executed (l ++ k) = executed l ++ executed k.
Proof. apply omap_app. Qed.
Lemma updates_app l k : updates (l ++ k) = updates l ++ updates k.
Proof. apply omap_app. Qed.
Lemma checks_app l k : checks (l ++ k) = checks l ++ checks k.
Proof. apply omap_app. Qed.

(** Closing the files that were returned, the last first, closes the files
    that were created, the last first: the nil file of a failed
    [os.Create] closes nothing. *)
Lemma closed_closes (log : list Event) :
  closed (Close <$> reverse (files log)) = reverse (created log).
Proof.
  induction log as [|ev log IH]; [done|].
  change (ev :: log) with ([ev] ++ log).
  rewrite files_app, created_app, !reverse_app, fmap_app, closed_app, IH.
  f_equal. by destruct ev as [| ? [?|] | | | | | | | | |].
Qed.

(** The loop over the templates: it calls [os.Create] for a prefix of the
    files of the templates, executes the templates of that prefix, for all
    of them when it ends without an error, defers the closing of each file
    that [os.Create] returned, and does nothing else to the files. *)
Lemma render_log example outputDir docsOuputDir exampleLower tmpls :
  let path := λ tmpl : string,
    if strings_EqualFold tmpl "docs_example.md"
    then filepath_Join box [docsOuputDir; exampleLower +:+ ".md"]
    else filepath_Join box [outputDir; exampleLower;
                            strings_ReplaceAll tmpl "example" exampleLower] in
  let name := λ tmpl : string, tmpl +:+ ".tmpl" in
  ∀ deferred log,
    let out := render box example outputDir docsOuputDir exampleLower tmpls deferred log in
    ∃ evs,
      out.2 = log ++ evs ∧
      out.1.2 = reverse (files evs) ++ deferred ∧
      closed evs = [] ∧ updates evs = [] ∧ checks evs = [] ∧
      requested evs `prefix_of` (path <$> tmpls) ∧
      executed evs `prefix_of` (name <$> tmpls) ∧
      length (executed evs) = length (requested evs) ∧
      created evs = filter (λ file, os_Create box file = None) (requested evs) ∧
      (out.1.1 = None →
         requested evs = path <$> tmpls ∧ executed evs = name <$> tmpls).
Proof.
  intros path name. induction tmpls as [|tmpl rest IH]; intros deferred log out.
  { exists []. subst out. simpl. rewrite app_nil_r. done. }
  subst out. cbn [render].
  destruct (template_ParseFiles box _ _) as [err|].
  { exists []. simpl. rewrite app_nil_r. repeat split; try done; apply prefix_nil. }
  unfold mbind, G_bind, does. fold (path tmpl) (name tmpl).
  destruct (os_MkdirAll box _ _) as [err|].
  { eexists [_]. simpl. repeat split; try done; apply prefix_nil. }
  set (file := if os_Create box (path tmpl) is Some _ then None else Some (path tmpl)).
  set (step := [MkdirAll (filepath_Dir box (path tmpl)) 511;
                Create (path tmpl) (os_Create box (path tmpl));
                Execute (name tmpl) file]).
  assert (Hfiles : files step = [file])
    by (unfold step, file; by destruct (os_Create box (path tmpl))).
  assert (Hcreated : created step =
                     filter (λ file, os_Create box file = None) [path tmpl]).
  { unfold step. rewrite filter_cons, filter_nil.
    destruct (decide (os_Create box (path tmpl) = None)) as [Hok|Hfail].
    - cbn. by rewrite Hok.
    - cbn. by destruct (os_Create box (path tmpl)). }
  assert (Hlog3 : ((log ++ [MkdirAll (filepath_Dir box (path tmpl)) 511])
                     ++ [Create (path tmpl) (os_Create box (path tmpl))])
                     ++ [Execute (name tmpl) file] = log ++ step)
    by (unfold step; by rewrite <- !app_assoc).
  rewrite Hlog3.
  destruct (ExecuteTemplate box _ _ _) as [err|].
  { exists step. cbn [fst snd].
    split; [done|]. split; [by rewrite Hfiles|].
    repeat (split; [done|]).
    split; [apply prefix_cons, prefix_nil|]. split; [apply prefix_cons, prefix_nil|].
    split; [done|]. split; [exact Hcreated|done]. }
  destruct (IH (file :: deferred) (log ++ step))
    as (evs & Hlog & Hdef & Hclosed & Hupd & Hchk & Hreq & Hexe & Hlen & Hcr & Hall).
  exists (step ++ evs).
  rewrite Hlog, Hdef, created_app, closed_app, updates_app, checks_app,
    requested_app, executed_app, files_app, Hfiles.
  rewrite Hclosed, Hupd, Hchk, Hcreated, Hcr.
  change (requested step) with [path tmpl].
  change (executed step) with [name tmpl].
  split; [by rewrite <- app_assoc|].
  split; [simpl; by rewrite reverse_cons, <- app_assoc|].
  repeat (split; [done|]).
  split; [simpl; by apply prefix_cons|].
  split; [simpl; by apply prefix_cons|].
  split; [simpl; by rewrite Hlen|].
  split; [by rewrite <- filter_app|].
  intros Hnone. destruct (Hall Hnone) as [-> ->]. done.
Qed.

(** The three updates of the configuration: each is made only after the
    one before it succeeded. *)
Lemma configuration_log example ctx log :
  let out :=
    (err ← generateWorkFlow box ctx;
     if err is Some _ then mret err else
     err ← generateMkdocs box ctx example;
     if err is Some _ then mret err else
     generateDependabotUpdates box ctx example) log in
  ∃ evs,
    out.2 = log ++ evs ∧
    created evs = [] ∧ closed evs = [] ∧ checks evs = [] ∧
    requested evs = [] ∧ executed evs = [] ∧ updates evs = evs ∧
    evs `prefix_of` configUpdates box example ctx ∧
    (out.1 = None → evs = configUpdates box example ctx).
Proof.
  intros out. subst out.
  unfold generateWorkFlow, getRootContext, generateMkdocs, generateDependabotUpdates,
    configUpdates, mbind, G_bind, does, mret, G_ret.
  destruct (os_Getwd box) as [current [err|]]; simpl.
  { exists []. rewrite app_nil_r. repeat split; try done. apply prefix_nil. }
  destruct (GetExamples box _) as [err|]; simpl.
  { exists []. rewrite app_nil_r. repeat split; try done. apply prefix_nil. }
  destruct (GetModules box _) as [err|]; simpl.
  { exists []. rewrite app_nil_r. repeat split; try done. apply prefix_nil. }
  destruct (workflow_Generate box _) as [err|]; simpl.
  { eexists [_]. repeat split; try done. apply prefix_cons, prefix_nil. }
  destruct (mkdocs_UpdateConfig box _ _ _ _) as [err|]; simpl.
  { eexists [_; _]. rewrite <- app_assoc. repeat split; try done.
    apply prefix_cons, prefix_cons, prefix_nil. }
  eexists [_; _; _]. rewrite <- !app_assoc. repeat split; try done.
Qed.

(** What [generate] returns and appends to the log. *)
Lemma generate_log example ctx log :
  let paths := exampleFilePath box example ctx <$> templates in
  let names := (λ tmpl, tmpl +:+ ".tmpl") <$> templates in
  ∃ err evs,
    generate box example ctx log = (err, log ++ evs) ∧
    closed evs = reverse (created evs) ∧
    checks evs = [] ∧
    requested evs `prefix_of` paths ∧
    executed evs `prefix_of` names ∧
    length (executed evs) = length (requested evs) ∧
    created evs = filter (λ file, os_Create box file = None) (requested evs) ∧
    updates evs `prefix_of` configUpdates box example ctx ∧
    (updates evs ≠ [] → requested evs = paths ∧ executed evs = names) ∧
    (Validate example ≠ None → evs = []) ∧
    (err = None →
       Validate example = None ∧ requested evs = paths ∧ executed evs = names ∧
       updates evs = configUpdates box example ctx).
Proof.
  intros paths names. unfold generate.
  destruct (Validate example) as [err|] eqn:Hvalid.
  { exists (Some err), []. cbn. rewrite app_nil_r.
    repeat split; try done; apply prefix_nil. }
  unfold mbind at 1, G_bind at 1, does at 1.
  destruct (os_MkdirAll box _ _) as [err|].
  { eexists (Some err), [_]. cbn. repeat split; try done; apply prefix_nil. }
  unfold mbind at 1, G_bind at 1.
  set (dir := MkdirAll _ 448).
  destruct (render_log example
              (filepath_Join box [RootDir ctx; ParentDir example])
              (filepath_Join box [DocsDir ctx; ParentDir example])
              (Lower box example) templates [] (log ++ [dir]))
    as (evs & Hlog & Hdef & Hclosed & Hupd & Hchk & Hreq & Hexe & Hlen & Hcr & Hall).
  fold (exampleFilePath box example ctx) in Hreq, Hall.
  fold paths names in Hreq, Hexe, Hall.
  destruct (render box example _ _ _ templates [] (log ++ [dir]))
    as [[err deferred] log2].
  cbn [fst snd] in Hlog, Hdef, Hall. rewrite app_nil_r in Hdef. subst log2 deferred.
  assert (Hparts : ∀ ups,
            created ups = [] → closed ups = [] → checks ups = [] →
            requested ups = [] → executed ups = [] →
            let all := [dir] ++ evs ++ ups ++ (Close <$> reverse (files evs)) in
            closed all = reverse (created all) ∧ checks all = [] ∧
            requested all = requested evs ∧ executed all = executed evs ∧
            created all = created evs ∧ updates all = updates ups).
  { intros ups Hcr' Hcl' Hck' Hrq' Hex' all. unfold all.
    rewrite !closed_app, !created_app, !checks_app, !requested_app, !executed_app,
      !updates_app.
    rewrite closed_closes, created_closes, checks_closes, requested_closes,
      executed_closes, updates_closes.
    rewrite Hclosed, Hupd, Hchk, Hcr', Hcl', Hck', Hrq', Hex', !app_nil_r.
    done. }
  destruct err as [err|].
  - unfold mbind, G_bind, mret, G_ret.
    pose proof (closes_log (reverse (files evs)) ((log ++ [dir]) ++ evs)) as Hcloses.
    destruct (mapM (M := G) (λ file, does (Close file) ()) (reverse (files evs))
                ((log ++ [dir]) ++ evs)) as [ys log3].
    cbn [fst snd] in Hcloses. subst log3.
    destruct (Hparts [] eq_refl eq_refl eq_refl eq_refl eq_refl)
      as (Hcl & Hck & Hrq & Hex & Hcrt & Hups).
    exists (Some err), ([dir] ++ evs ++ [] ++ (Close <$> reverse (files evs))).
    split; [by rewrite <- !app_assoc|].
    rewrite Hcl, Hck, Hrq, Hex, Hcrt, Hups.
    repeat split; try done. apply prefix_nil.
  - unfold mbind at 1, G_bind at 1.
    destruct (configuration_log example ctx ((log ++ [dir]) ++ evs))
      as (ups & Hlog' & Hcr' & Hcl' & Hck' & Hrq' & Hex' & Hup & Hpre' & Hall').
    cbv zeta in Hlog', Hall'.
    destruct ((generateWorkFlow box ctx ≫= _) ((log ++ [dir]) ++ evs)) as [err log3].
    cbn [fst snd] in Hlog', Hall'. subst log3.
    unfold mbind, G_bind, mret, G_ret.
    pose proof (closes_log (reverse (files evs)) (((log ++ [dir]) ++ evs) ++ ups))
      as Hcloses.
    destruct (mapM (M := G) (λ file, does (Close file) ()) (reverse (files evs))
                (((log ++ [dir]) ++ evs) ++ ups)) as [ys log4].
    cbn [fst snd] in Hcloses. subst log4.
    destruct (Hparts ups Hcr' Hcl' Hck' Hrq' Hex')
      as (Hcl & Hck & Hrq & Hex & Hcrt & Hups).
    destruct (Hall eq_refl) as [Hrequested Hexecuted].
    exists err, ([dir] ++ evs ++ ups ++ (Close <$> reverse (files evs))).
    split; [by rewrite <- !app_assoc|].
    rewrite Hcl, Hck, Hrq, Hex, Hcrt, Hups, Hup.
    repeat split; try done.
    all: by apply Hall'.
Qed.

(** X17: on every path through [generate], whatever fails, the files that
    were created are closed when it returns, each once and the last
    created first. *)
Theorem generate_closes_created example ctx log :
  ∃ err evs,
    generate box example ctx log = (err, log ++ evs) ∧
    closed evs = reverse (created evs).
Proof.
  destruct (generate_log example ctx log) as (err & evs & Hgen & Hclosed & _).
  eauto.
Qed.


(** X19: when [generate] returns no error, the example was valid,
    [os.Create] was called for the file of every template and every
    template was executed, in the order of the templates, the files
    created are those whose [os.Create] did not fail, all of them when none
    fails, the three updates of the configuration were made in their
    order, and the files created were closed in the reverse order. *)
Theorem generate_success example ctx log log' :
  let paths := exampleFilePath box example ctx <$> templates in
  let names := (λ tmpl, tmpl +:+ ".tmpl") <$> templates in
  generate box example ctx log = (None, log') →
  ∃ evs,
    log' = log ++ evs ∧
    Validate example = None ∧
    requested evs = paths ∧
    executed evs = names ∧
    created evs = filter (λ file, os_Create box file = None) paths ∧
    ((∀ file, file ∈ paths → os_Create box file = None) → created evs = paths) ∧
    updates evs = configUpdates box example ctx ∧
    closed evs = reverse (created evs).
Proof.
  intros paths names Hgen.
  destruct (generate_log example ctx log)
    as (err & evs & Hgen' & Hclosed & _ & _ & _ & _ & Hcr & _ & _ & _ & Hnone).
  rewrite Hgen in Hgen'. injection Hgen' as <- ->.
  destruct (Hnone eq_refl) as (Hvalid & Hrq & Hex & Hup).
  fold paths in Hrq. rewrite Hrq in Hcr.
  exists evs. repeat (split; [done|]). split; [|done].
  intros Hall. rewrite Hcr. clear -Hall.
  induction paths as [|file rest IH]; [done|].
  rewrite filter_cons_True by (apply Hall; left).
  f_equal. apply IH. intros f Hf. apply Hall. by right.
Qed.

Lemma missing_required (set : gmap string string) :
  missing ["name"; "image"] set =
  match set !! "name", set !! "image" with
  | None, _ => Some "name"
  | Some _, None => Some "image"
  | Some _, Some _ => None
  end.
Proof. cbn [missing]. by destruct (set !! "name"), (set !! "image"). Qed.

(** X20: a run of [main] on a command line that [flag.Parse] accepts,
    without the name flag, or with it and without the image flag, prints
    on the standard error that this flag is missing, the name first, and
    exits with status 2 having done nothing else. *)
Theorem main_missing_flag (args : list string) (set : gmap string string)
    (log : list Event) :
  flag_Parse box args = Parsed set →
  (set !! "name" = None →
     main box args log =
       (2%Z, log ++ [Eprint ("missing required -name argument/flag" +:+ nl)])) ∧
  (is_Some (set !! "name") → set !! "image" = None →
     main box args log =
       (2%Z, log ++ [Eprint ("missing required -image argument/flag" +:+ nl)])).
Proof.
  intros Hparse. split.
  - intros Hname. unfold main. rewrite Hparse, missing_required, Hname. done.
  - intros [v Hname] Himage. unfold main.
    rewrite Hparse, missing_required, Hname, Himage. done.
Qed.


End GeneratorFacts.

(** ** The further properties at concrete inputs *)

Lemma overlay_domain_witness :
  wf boot ∧ which demoHost (Executable (demoOverlay demoHost)) = None ∧
  always (Invoke demoHost (exits None None None) (demoOverlay demoHost)) boot (λ r m',
    ∃ c, calls (trace m') = [c] ∧
         dom (call_environment c) =
           ({[ "COMPOSE_PROJECT_NAME"; "COMPOSE_FILE" ]} : gset string)).
Proof.
  assert (Hwf : wf boot) by apply Forall_nil_2.
  assert (Hwhich : which demoHost (Executable (demoOverlay demoHost)) = None)
    by reflexivity.
  split; [exact Hwf|]. split; [exact Hwhich|].
  destruct (overlay_domain demoHost (exits None None None) (demoOverlay demoHost)
              InvokeOp boot Hwf Hwhich) as [_ Hall].
  eapply always_mono; [exact Hall|].
  intros r m' (c & Hc & Hdom). exists c. split; [exact Hc|].
  rewrite Hdom. change (Env (demoOverlay demoHost))
    with ({[ "COMPOSE_PROJECT_NAME" := "other" ]} : gmap string string).
  rewrite dom_singleton_L. set_solver.
Defined.

Lemma start_failure_halts_witness :
  wf boot ∧ which demoHost (Executable (demo demoHost)) = None ∧
  always (Down demoHost (unstartable "fork/exec: permission denied") (demo demoHost)) boot
    (λ r m',
       r = Panicked ("Local Docker compose exited abnormally whilst running " +:+
                     "docker-compose: [up -d]. fork/exec: permission denied") ∧
       goroutines (trace m') = [] ∧ started (trace m') = []).
Proof.
  assert (Hwf : wf boot) by apply Forall_nil_2.
  assert (Hwhich : which demoHost (Executable (demo demoHost)) = None) by reflexivity.
  split; [exact Hwf|]. split; [exact Hwhich|].
  destruct (start_failure_halts demoHost (unstartable "fork/exec: permission denied")
              (demo demoHost) DownOp boot _ Hwf Hwhich eq_refl) as [_ Hall].
  exact Hall.
Defined.

Lemma copy_failure_is_returned_witness :
  wf boot ∧ which demoHost (Executable (demo demoHost)) = None ∧
  always (Invoke demoHost (exits None (Some "read |0: file already closed") None)
            (demo demoHost)) boot
    (λ r m', ∃ execErr, r = Returned execErr ∧ Error execErr = None) ∧
  possibly (Invoke demoHost (exits None (Some "read |0: file already closed") None)
              (demo demoHost)) boot
    (λ r m', r = Returned {| Error := None;
                             Stdout := Some "read |0: file already closed";
                             Stderr := None |}).
Proof.
  assert (Hwf : wf boot) by apply Forall_nil_2.
  assert (Hwhich : which demoHost (Executable (demo demoHost)) = None) by reflexivity.
  split; [exact Hwf|]. split; [exact Hwhich|].
  destruct (copy_failure_is_returned demoHost
              (exits None (Some "read |0: file already closed") None)
              (demo demoHost) InvokeOp boot Hwf Hwhich eq_refl eq_refl)
    as [Hall Hsome].
  split; [|exact Hsome].
  eapply always_mono; [exact Hall|].
  intros r m' (so & se & -> & _). eexists. split; reflexivity.
Defined.

Lemma started_process_witness :
  wf boot ∧ which demoHost (Executable (demo demoHost)) = None ∧
  always (Invoke demoHost (exits None None None) (demo demoHost)) boot (λ r m',
    ∀ p, p ∈ started (trace m') →
      Path p = "/usr/bin/docker-compose" ∧
      Args p = ["docker-compose"; "-f"; "/work/testdata/docker-compose.yml"; "up"; "-d"] ∧
      "COMPOSE_PROJECT_NAME=myproject" ∈ CmdEnv p).
Proof.
  assert (Hwf : wf boot) by apply Forall_nil_2.
  assert (Hwhich : which demoHost (Executable (demo demoHost)) = None) by reflexivity.
  split; [exact Hwf|]. split; [exact Hwhich|].
  eapply always_mono;
    [exact (started_process demoHost (exits None None None) (demo demoHost)
              InvokeOp boot Hwf Hwhich)|].
  intros r m' Hstarted p Hp.
  destruct (Hstarted p Hp)
    as [Hold|(Hpath & Hargs & tail & Henv & _ & _ & Hentries)].
  { by apply elem_of_nil in Hold. }
  split; [apply Hpath; [reflexivity|discriminate]|]. split; [exact Hargs|].
  rewrite Henv. apply elem_of_app. right.
  apply (Hentries "COMPOSE_PROJECT_NAME" "myproject"). reflexivity.
Defined.

Lemma operation_resources_witness :
  wf boot ∧ which demoHost (Executable (demo demoHost)) = None ∧
  always (Down demoHost (unstartable "fork/exec: permission denied") (demo demoHost)) boot
    (λ r m', length (calls (trace m')) = 1 ∧
             tees (trace m') = [StdoutStream; StderrStream]).
Proof.
  assert (Hwf : wf boot) by apply Forall_nil_2.
  assert (Hwhich : which demoHost (Executable (demo demoHost)) = None) by reflexivity.
  split; [exact Hwf|]. split; [exact Hwhich|].
  eapply always_mono;
    [exact (operation_resources demoHost (unstartable "fork/exec: permission denied")
              (demo demoHost) DownOp boot Hwf Hwhich)|].
  intros r m' (Hcalls & Htees & _). split; [exact Hcalls|exact Htees].
Defined.

Lemma invoke_then_down_witness :
  wf boot ∧ which demoHost (Executable (demo demoHost)) = None ∧
  always (Invoke demoHost (exits None None None) (demo demoHost)
            ≫= λ _, Down demoHost (exits None None None) (demo demoHost)) boot
    (λ r m', ∀ execErr, r = Returned execErr →
       call_args <$> calls (trace m') =
         [["-f"; "/work/testdata/docker-compose.yml"; "up"; "-d"];
          ["-f"; "/work/testdata/docker-compose.yml"; "down"]]).
Proof.
  assert (Hwf : wf boot) by apply Forall_nil_2.
  assert (Hwhich : which demoHost (Executable (demo demoHost)) = None) by reflexivity.
  split; [exact Hwf|]. split; [exact Hwhich|].
  eapply always_mono;
    [exact (invoke_then_down demoHost (exits None None None) (demo demoHost)
              boot Hwf Hwhich)|].
  intros r m' [Hboth _] execErr Hr.
  destruct (Hboth execErr Hr) as (c1 & c2 & Hcalls & _ & _ & Ha1 & Ha2 & _).
  rewrite Hcalls. simpl. rewrite Ha1, Ha2. reflexivity.
Defined.

Lemma identifier_lowered_witness :
  string_forallb (λ c, byte_lt c 128) "MyProject" = true ∧
  Identifier (NewLocalDockerCompose demoHost [] "MyProject") = "myproject" ∧
  Identifier (NewLocalDockerCompose demoHost [] "myproject") = "myproject".
Proof.
  split; [reflexivity|].
  destruct (identifier_lowered demoHost [] "MyProject" eq_refl) as (_ & _ & Hagain).
  split; [reflexivity|exact Hagain].
Defined.

Lemma Lower_of_valid_witness :
  Modulegen.Validate
    {| Modulegen.Image := "docker.io/mongo:6"; Modulegen.IsModule := false;
       Modulegen.Name := "Mongodb"; Modulegen.TitleName := "MongoDB";
       Modulegen.TCVersion := "v0.20.1" |} = None ∧
  Modulegen.Lower Modulegen.demoBox
    {| Modulegen.Image := "docker.io/mongo:6"; Modulegen.IsModule := false;
       Modulegen.Name := "Mongodb"; Modulegen.TitleName := "MongoDB";
       Modulegen.TCVersion := "v0.20.1" |} = "mongodb".
Proof.
  split; [reflexivity|].
  destruct (Lower_of_valid Modulegen.demoBox
              {| Modulegen.Image := "docker.io/mongo:6"; Modulegen.IsModule := false;
                 Modulegen.Name := "Mongodb"; Modulegen.TitleName := "MongoDB";
                 Modulegen.TCVersion := "v0.20.1" |} eq_refl) as (Hlower & _).
  rewrite Hlower. reflexivity.
Defined.

Lemma names_of_valid_witness :
  Modulegen.Validate
    {| Modulegen.Image := "docker.io/mongo:6"; Modulegen.IsModule := false;
       Modulegen.Name := "Mongodb"; Modulegen.TitleName := "MongoDB";
       Modulegen.TCVersion := "v0.20.1" |} = None ∧
  ∀ lowerFirstRune cases_Title,
    Modulegen.ContainerName Modulegen.demoBox lowerFirstRune cases_Title
      {| Modulegen.Image := "docker.io/mongo:6"; Modulegen.IsModule := false;
         Modulegen.Name := "Mongodb"; Modulegen.TitleName := "MongoDB";
         Modulegen.TCVersion := "v0.20.1" |} = "mongoDBContainer".
Proof.
  split; [reflexivity|]. intros lowerFirstRune cases_Title.
  destruct (names_of_valid Modulegen.demoBox lowerFirstRune cases_Title
              {| Modulegen.Image := "docker.io/mongo:6"; Modulegen.IsModule := false;
                 Modulegen.Name := "Mongodb"; Modulegen.TitleName := "MongoDB";
                 Modulegen.TCVersion := "v0.20.1" |} eq_refl)
    as (c & rest & Htitle & _ & _ & Hname).
  rewrite Hname. simpl in Htitle. injection Htitle as <- <-. reflexivity.
Defined.

Lemma generate_success_witness :
  (Modulegen.generate Modulegen.demoBox
     {| Modulegen.Image := "docker.io/mongo:6"; Modulegen.IsModule := true;
        Modulegen.Name := "Mongodb"; Modulegen.TitleName := "MongoDB";
        Modulegen.TCVersion := "v0.20.1" |}
     (Modulegen.NewContext Modulegen.demoBox "/repo") []).1 = None ∧
  (∃ evs,
     Modulegen.created evs =
       ["/repo/docs/modules/mongodb.md"; "/repo/modules/mongodb/mongodb_test.go";
        "/repo/modules/mongodb/mongodb.go"; "/repo/modules/mongodb/go.mod";
        "/repo/modules/mongodb/Makefile"] ∧
     Modulegen.closed evs = reverse (Modulegen.created evs)) ∧
  (Modulegen.generate Modulegen.readOnlyGoMod
     {| Modulegen.Image := "docker.io/mongo:6"; Modulegen.IsModule := true;
        Modulegen.Name := "Mongodb"; Modulegen.TitleName := "MongoDB";
        Modulegen.TCVersion := "v0.20.1" |}
     (Modulegen.NewContext Modulegen.readOnlyGoMod "/repo") []).1 = None ∧
  (∃ evs,
     Modulegen.requested evs =
       ["/repo/docs/modules/mongodb.md"; "/repo/modules/mongodb/mongodb_test.go";
        "/repo/modules/mongodb/mongodb.go"; "/repo/modules/mongodb/go.mod";
        "/repo/modules/mongodb/Makefile"] ∧
     Modulegen.created evs =
       ["/repo/docs/modules/mongodb.md"; "/repo/modules/mongodb/mongodb_test.go";
        "/repo/modules/mongodb/mongodb.go"; "/repo/modules/mongodb/Makefile"] ∧
     length (Modulegen.updates evs) = 3 ∧
     Modulegen.closed evs = reverse (Modulegen.created evs)).
Proof.
  split; [reflexivity|]. split; [|split; [reflexivity|]].
  - destruct (generate_success Modulegen.demoBox
                {| Modulegen.Image := "docker.io/mongo:6"; Modulegen.IsModule := true;
                   Modulegen.Name := "Mongodb"; Modulegen.TitleName := "MongoDB";
                   Modulegen.TCVersion := "v0.20.1" |}
                (Modulegen.NewContext Modulegen.demoBox "/repo") []
                (Modulegen.generate Modulegen.demoBox
                   {| Modulegen.Image := "docker.io/mongo:6"; Modulegen.IsModule := true;
                      Modulegen.Name := "Mongodb"; Modulegen.TitleName := "MongoDB";
                      Modulegen.TCVersion := "v0.20.1" |}
                   (Modulegen.NewContext Modulegen.demoBox "/repo") []).2
                eq_refl)
      as (evs & _ & _ & _ & _ & _ & Hcreated & _ & Hclosed).
    exists evs. split; [|exact Hclosed].
    apply Hcreated. intros file _. reflexivity.
  - destruct (generate_success Modulegen.readOnlyGoMod
                {| Modulegen.Image := "docker.io/mongo:6"; Modulegen.IsModule := true;
                   Modulegen.Name := "Mongodb"; Modulegen.TitleName := "MongoDB";
                   Modulegen.TCVersion := "v0.20.1" |}
                (Modulegen.NewContext Modulegen.readOnlyGoMod "/repo") []
                (Modulegen.generate Modulegen.readOnlyGoMod
                   {| Modulegen.Image := "docker.io/mongo:6"; Modulegen.IsModule := true;
                      Modulegen.Name := "Mongodb"; Modulegen.TitleName := "MongoDB";
                      Modulegen.TCVersion := "v0.20.1" |}
                   (Modulegen.NewContext Modulegen.readOnlyGoMod "/repo") []).2
                eq_refl)
      as (evs & _ & _ & Hrequested & _ & Hcreated & _ & Hupdates & Hclosed).
    exists evs. split; [exact Hrequested|]. split; [exact Hcreated|].
    split; [by rewrite Hupdates|exact Hclosed].
Defined.

Lemma main_missing_flag_witness :
  Modulegen.flag_Parse Modulegen.demoBox ["-image"; "docker.io/redis:7"; "redis"] =
    Modulegen.Parsed {[ "image" := "docker.io/redis:7" ]} ∧
  Modulegen.main Modulegen.demoBox ["-image"; "docker.io/redis:7"; "redis"] [] =
    (2%Z, [Modulegen.Eprint ("missing required -name argument/flag" +:+ Modulegen.nl)]).
Proof.
  assert (Hparse : Modulegen.flag_Parse Modulegen.demoBox
                     ["-image"; "docker.io/redis:7"; "redis"] =
                   Modulegen.Parsed {[ "image" := "docker.io/redis:7" ]})
    by (vm_compute; reflexivity).
  split; [exact Hparse|].
  destruct (main_missing_flag Modulegen.demoBox
              ["-image"; "docker.io/redis:7"; "redis"]
              {[ "image" := "docker.io/redis:7" ]} [] Hparse) as [Hname _].
  apply Hname. reflexivity.
Defined.


Lemma example_names_unexported_witness :
  Modulegen.Validate
    {| Modulegen.Image := "docker.io/mongo:6"; Modulegen.IsModule := false;
       Modulegen.Name := "Mongodb"; Modulegen.TitleName := "MongoDB";
       Modulegen.TCVersion := "v0.20.1" |} = None ∧
  Modulegen.Entrypoint
    {| Modulegen.Image := "docker.io/mongo:6"; Modulegen.IsModule := false;
       Modulegen.Name := "Mongodb"; Modulegen.TitleName := "MongoDB";
       Modulegen.TCVersion := "v0.20.1" |} = "runContainer" ∧
  Modulegen.ParentDir
    {| Modulegen.Image := "docker.io/mongo:6"; Modulegen.IsModule := false;
       Modulegen.Name := "Mongodb"; Modulegen.TitleName := "MongoDB";
       Modulegen.TCVersion := "v0.20.1" |} = "examples".
Proof.
  split; [reflexivity|].
  destruct (example_names_unexported Modulegen.demoBox (λ s, s) (λ s, s)
              {| Modulegen.Image := "docker.io/mongo:6"; Modulegen.IsModule := false;
                 Modulegen.Name := "Mongodb"; Modulegen.TitleName := "MongoDB";
                 Modulegen.TCVersion := "v0.20.1" |} eq_refl eq_refl)
    as (_ & Hentry & _ & Hparent).
  split; [exact Hentry|exact Hparent].
Defined.
